(** * Multigres gateway: diagnostics, row codec, settings merge

    A shallow embedding of
      - go/common/sqltypes   (PgDiagnostic, Value, Row and their proto forms),
      - go/common/mterrors   (PgError, AsPgError),
    and of the two gateway pieces whose Go bodies are only visible through
    their tests (settings merge, backend authentication and parameter
    status), together with the properties stated for them.

    Conventions.
      - Go [string] is a Rocq [string]: a sequence of bytes.
      - Go [byte], [int32], [int64], [int] are [Z] with the conversions
        written out ([int] is the 64-bit one).
      - A Go pointer that is only read is an [option]; [None] is [nil].
      - A Go map is an [option (gmap string string)]; [None] is the nil map.
      - A run-time panic is an explicit outcome, never a missing case. *)

From Stdlib Require Import ZArith List Ascii String DecimalString Lia.
From stdpp Require Import base option list gmap strings.

Local Open Scope string_scope.
Local Open Scope Z_scope.

(** ** Go primitives *)

Module Go.

(** Outcome of a call that the Go run time may abort. *)
Inductive outcome (A : Type) : Type :=
| Returned (a : A)
| Panicked (msg : string).
Arguments Returned {A} a.
Arguments Panicked {A} msg.

Global Instance outcome_ret : MRet outcome := fun A a => Returned a.
Global Instance outcome_bind : MBind outcome := fun A B k x =>
  match x with
  | Returned a => k a
  | Panicked m => Panicked m
  end.

Definition maxInt : Z := 2 ^ 63 - 1.
Definition minInt : Z := - 2 ^ 63.

(** Two's complement wrap-around of a 64-bit signed integer. *)
Definition wrap64 (z : Z) : Z := (z + 2 ^ 63) mod 2 ^ 64 - 2 ^ 63.

(** [byte(x)] for an [int32] [x]: the low eight bits. *)
Definition byte_of_int32 (x : Z) : Z := x mod 256.

(** [int32(b)] for a [byte] [b]: zero extension. *)
Definition int32_of_byte (b : Z) : Z := b.

(** [len(s)] of a string, as an [int]. *)
Definition len (s : string) : Z := Z.of_nat (String.length s).

(** [s[:n]] on a string, for [0 <= n <= len(s)]. *)
Definition str_prefix (n : nat) (s : string) : string := String.substring 0 n s.

(** [strings.Join(elems, sep)]. *)
Fixpoint Join (elems : list string) (sep : string) : string :=
  match elems with
  | [] => ""
  | [e] => e
  | e :: rest => e +:+ sep +:+ Join rest sep
  end.

(** [strings.Contains(s, sub)], as the tests' [assert.Contains] uses it. *)
Fixpoint Contains (s sub : string) : bool :=
  String.prefix sub s ||
  match s with
  | EmptyString => false
  | String _ s' => Contains s' sub
  end.

(** Lower-case hexadecimal digit. *)
Definition hex_digit (n : Z) : ascii :=
  if n <? 10 then ascii_of_N (Z.to_N (48 + n)) else ascii_of_N (Z.to_N (87 + n)).

(** [%02x] of a byte. *)
Definition fmt_02x (b : Z) : string :=
  String (hex_digit (b / 16)) (String (hex_digit (b mod 16)) "").

(** [%c] of a byte: the UTF-8 encoding of the code point [b] (below 256). *)
Definition fmt_c (b : Z) : string :=
  if b <? 128 then String (ascii_of_N (Z.to_N b)) ""
  else String (ascii_of_N (Z.to_N (Z.lor 192 (Z.shiftr b 6))))
         (String (ascii_of_N (Z.to_N (Z.lor 128 (Z.land b 63)))) "").

(** A Go [[]byte]: the [len] visible elements and the rest of the backing
    array up to [cap]. A nil slice is not represented here; where nil
    matters the slice sits under an [option]. *)
Record byte_slice : Type := mkSlice {
  elems : list Z;
  spare : list Z
}.

Definition slice_len (s : byte_slice) : Z := Z.of_nat (length (elems s)).
Definition slice_cap (s : byte_slice) : Z :=
  Z.of_nat (length (elems s) + length (spare s)).

(** [s[lo:hi]] on a slice: bounds are checked against the capacity, the
    result shares the backing array. *)
Definition reslice (s : byte_slice) (lo hi : Z) : outcome byte_slice :=
  if (0 <=? lo) && (lo <=? hi) && (hi <=? slice_cap s) then
    let backing := (elems s ++ spare s)%list in
    Returned (mkSlice (take (Z.to_nat (hi - lo)) (drop (Z.to_nat lo) backing))
                      (drop (Z.to_nat hi) backing))
  else Panicked "slice bounds out of range".

End Go.

Import Go.

(** ** go/common/sqltypes: diagnostics *)

Module Sqltypes.

(** [type PgDiagnostic struct]. [MessageType] is a [byte], the two
    positions are [int32]. *)
Record PgDiagnostic : Type := mkDiag {
  MessageType : Z;
  Severity : string;
  Code : string;
  Message : string;
  Detail : string;
  Hint : string;
  Position : Z;
  InternalPosition : Z;
  InternalQuery : string;
  Where : string;
  Schema : string;
  Table : string;
  Column : string;
  DataType : string;
  Constraint : string
}.

(** The values a Go [PgDiagnostic] can hold: a byte and two int32. *)
Definition diag_in_range (d : PgDiagnostic) : Prop :=
  0 <= MessageType d < 256 ∧
  - 2 ^ 31 <= Position d < 2 ^ 31 ∧
  - 2 ^ 31 <= InternalPosition d < 2 ^ 31.

(** ['E'] and ['N']. *)
Definition MsgErrorResponse : Z := 69.
Definition MsgNoticeResponse : Z := 78.

Definition IsError (d : PgDiagnostic) : bool := MessageType d =? MsgErrorResponse.
Definition IsNotice (d : PgDiagnostic) : bool := MessageType d =? MsgNoticeResponse.

Definition SQLSTATE (d : PgDiagnostic) : string := Code d.

(** [func (d *PgDiagnostic) SQLSTATEClass() string] *)
Definition SQLSTATEClass (d : PgDiagnostic) : string :=
  if len (Code d) <? 2 then "" else str_prefix 2 (Code d).

(** [func (d *PgDiagnostic) IsClass(class string) bool] *)
Definition IsClass (d : PgDiagnostic) (class : string) : bool :=
  bool_decide (SQLSTATEClass d = class).

(** [func (d *PgDiagnostic) IsFatal() bool] *)
Definition IsFatal (d : PgDiagnostic) : bool :=
  bool_decide (Severity d = "FATAL") || bool_decide (Severity d = "PANIC").

(** [func (d *PgDiagnostic) Error() string]; the receiver may be nil. *)
Definition Error (d : option PgDiagnostic) : string :=
  match d with
  | None => "ERROR: unknown error"
  | Some d => (Severity d +:+ ": ") +:+ Message d
  end.

(** [func (d *PgDiagnostic) FullError() string] *)
Definition FullError (d : option PgDiagnostic) : string :=
  match d with
  | None => "ERROR: unknown error (SQLSTATE 00000)"
  | Some d =>
      ((((Severity d +:+ ": ") +:+ Message d) +:+ " (SQLSTATE ") +:+ Code d) +:+ ")"
  end.

(** The four checks of [Validate], in source order; each yields the text
    it appends to [issues], or nothing. *)
Definition issue_MessageType (d : PgDiagnostic) : list string :=
  if negb (MessageType d =? 69) && negb (MessageType d =? 78) then
    if MessageType d =? 0 then
      ["MessageType is unset (0x00): must be 'E' or 'N'"]
    else
      ["invalid MessageType '" +:+ fmt_c (MessageType d) +:+ "' (0x" +:+
         fmt_02x (MessageType d) +:+ "): must be 'E' or 'N'"]
  else [].

Definition issue_Severity (d : PgDiagnostic) : list string :=
  if bool_decide (Severity d = "") then ["Severity is empty"] else [].

Definition issue_Code (d : PgDiagnostic) : list string :=
  if bool_decide (Code d = "") then ["Code (SQLSTATE) is empty"] else [].

Definition issue_Message (d : PgDiagnostic) : list string :=
  if bool_decide (Message d = "") then ["Message is empty"] else [].

(** The local [issues] slice once the four checks have run. *)
Definition issues (d : PgDiagnostic) : list string :=
  (issue_MessageType d ++ issue_Severity d ++ issue_Code d ++ issue_Message d)%list.

(** [func (d *PgDiagnostic) Validate() error]: [None] is the nil error,
    [Some m] an error whose text is [m]. *)
Definition Validate (d : option PgDiagnostic) : option string :=
  match d with
  | None => Some "diagnostic is nil"
  | Some d =>
      if 0 <? Z.of_nat (length (issues d)) then
        Some ("invalid PgDiagnostic: " +:+ Join (issues d) "; ")
      else None
  end.

(** [PgDiagnostic{...}] with one field replaced, as in the examples of the
    doc comments ([&PgDiagnostic{Code: "42P01"}]). *)
Definition with_Code (c : string) (d : PgDiagnostic) : PgDiagnostic :=
  mkDiag (MessageType d) (Severity d) c (Message d) (Detail d) (Hint d)
    (Position d) (InternalPosition d) (InternalQuery d) (Where d) (Schema d)
    (Table d) (Column d) (DataType d) (Constraint d).

Definition with_Severity (s : string) (d : PgDiagnostic) : PgDiagnostic :=
  mkDiag (MessageType d) s (Code d) (Message d) (Detail d) (Hint d)
    (Position d) (InternalPosition d) (InternalQuery d) (Where d) (Schema d)
    (Table d) (Column d) (DataType d) (Constraint d).

(** The four constraints on a diagnostic, as the specification lists them:
    "class tag valid, severity/code/message non-empty". *)
Inductive constraint : Type :=
| TagValid
| SeverityPresent
| CodePresent
| MessagePresent.

Definition all_constraints : list constraint :=
  [TagValid; SeverityPresent; CodePresent; MessagePresent].

Definition holds (d : PgDiagnostic) (c : constraint) : Prop :=
  match c with
  | TagValid => MessageType d = MsgErrorResponse ∨ MessageType d = MsgNoticeResponse
  | SeverityPresent => Severity d ≠ ""
  | CodePresent => Code d ≠ ""
  | MessagePresent => Message d ≠ ""
  end.

Global Instance holds_dec d c : Decision (holds d c).
Proof. destruct c; simpl; apply _. Defined.

(** The constraints a diagnostic violates, in the order of the list. *)
Definition violated (d : PgDiagnostic) : list constraint :=
  filter (λ c, ¬ holds d c) all_constraints.

(** The text that reports a violated constraint. *)
Definition describe (d : PgDiagnostic) (c : constraint) : string :=
  match c with
  | TagValid =>
      if MessageType d =? 0 then "MessageType is unset (0x00): must be 'E' or 'N'"
      else "invalid MessageType '" +:+ fmt_c (MessageType d) +:+ "' (0x" +:+
           fmt_02x (MessageType d) +:+ "): must be 'E' or 'N'"
  | SeverityPresent => "Severity is empty"
  | CodePresent => "Code (SQLSTATE) is empty"
  | MessagePresent => "Message is empty"
  end.

(** The code a rendering shows: that of the diagnostic, "00000" when there
    is none. *)
Definition shown_code (d : option PgDiagnostic) : string :=
  match d with
  | None => "00000"
  | Some d => Code d
  end.

(** The generic diagnostic the renderings fall back on: severity ERROR,
    message "unknown error", code "00000". *)
Definition unknown_error : PgDiagnostic :=
  mkDiag 69 "ERROR" "00000" "unknown error" "" "" 0 0 "" "" "" "" "" "" "".

(** The diagnostic of [TestPgErrorUnwrap]. *)
Definition undefined_table : PgDiagnostic :=
  mkDiag 69 "ERROR" "42P01" "relation does not exist" "" "" 0 0 "" "" "" "" "" "" "".

End Sqltypes.

(** ** go/pb/query: the transport messages *)

Module Query.

(** [message Row]: [Lengths] is a [[]int64], [Values] a [[]byte]. *)
Record Row : Type := mkRow {
  Lengths : list Z;
  Values : byte_slice
}.

(** [message PgDiagnostic]: [MessageType] is an [int32] here. *)
Record PgDiagnostic : Type := mkDiag {
  MessageType : Z;
  Severity : string;
  Code : string;
  Message : string;
  Detail : string;
  Hint : string;
  Position : Z;
  InternalPosition : Z;
  InternalQuery : string;
  Where : string;
  SchemaName : string;
  TableName : string;
  ColumnName : string;
  DataTypeName : string;
  ConstraintName : string
}.

End Query.

(** ** go/common/sqltypes: rows, values and the proto conversions *)

Module Codec.

(** [type Value []byte]: [None] is the nil slice (SQL NULL), [Some []] the
    empty byte sequence. Only [len] and the bytes of a [Value] are read. *)
Definition Value : Type := option (list Z).

Definition IsNull (v : Value) : bool :=
  match v with None => true | Some _ => false end.

(** [type Row struct { Values []Value }], the slice taken as the sequence
    of its elements. *)
Record Row : Type := mkRow { Values : list Value }.

(** [make([]byte, 0, n)]: the run time refuses a negative capacity. *)
Definition make_bytes (n : Z) : outcome byte_slice :=
  if n <? 0 then Panicked "makeslice: cap out of range"
  else Returned (mkSlice [] (replicate (Z.to_nat n) 0)).

(** [append(s, v...)]: in place while the capacity lasts, otherwise into a
    fresh backing array (taken here with no room to spare; how much the run
    time over-allocates is its own business). *)
Definition append_bytes (s : byte_slice) (v : list Z) : byte_slice :=
  if Z.of_nat (length (elems s) + length v) <=? slice_cap s
  then mkSlice (elems s ++ v) (drop (length v) (spare s))
  else mkSlice (elems s ++ v) [].

(** First loop of [ToProto]: the entry written to [lengths[i]]. *)
Definition length_of (v : Value) : Z :=
  match v with
  | None => -1
  | Some b => Z.of_nat (length b)
  end.

(** First loop of [ToProto]: [totalLen += len(v)] on an [int]. *)
Definition totalLen_step (acc : Z) (v : Value) : Z :=
  match v with
  | None => acc
  | Some b => wrap64 (acc + Z.of_nat (length b))
  end.

(** Second loop of [ToProto]. *)
Definition append_step (values : byte_slice) (v : Value) : byte_slice :=
  match v with
  | None => values
  | Some b => append_bytes values b
  end.

(** [func (r *Row) ToProto() *query.Row] *)
Definition ToProto (r : option Row) : outcome (option Query.Row) :=
  match r with
  | None => Returned None
  | Some r =>
      let lengths := map length_of (Values r) in
      let totalLen := fold_left totalLen_step (Values r) 0 in
      values ← make_bytes totalLen;
      let values := fold_left append_step (Values r) values in
      mret (Some (Query.mkRow lengths values))
  end.

(** The loop of [RowFromProto] from index [i] on, [offset] being the local
    of that name and [lengths] the entries still to visit. *)
Fixpoint decode_from (vals : byte_slice) (offset : Z) (lengths : list Z)
  : outcome (list Value) :=
  match lengths with
  | [] => Returned []
  | length :: rest =>
      if length =? -1 then
        vs ← decode_from vals offset rest; mret (None :: vs)
      else if length =? 0 then
        vs ← decode_from vals offset rest; mret (Some [] :: vs)
      else
        v ← reslice vals offset (wrap64 (offset + length));
        vs ← decode_from vals (wrap64 (offset + length)) rest;
        mret (Some (elems v) :: vs)
  end.

(** [func RowFromProto(pr *query.Row) *Row] *)
Definition RowFromProto (pr : option Query.Row) : outcome (option Row) :=
  match pr with
  | None => Returned None
  | Some pr =>
      values ← decode_from (Query.Values pr) 0 (Query.Lengths pr);
      mret (Some (mkRow values))
  end.

(** [func PgDiagnosticToProto(d *PgDiagnostic) *query.PgDiagnostic] *)
Definition PgDiagnosticToProto (d : option Sqltypes.PgDiagnostic)
  : option Query.PgDiagnostic :=
  match d with
  | None => None
  | Some d =>
      Some {| Query.MessageType := int32_of_byte (Sqltypes.MessageType d);
              Query.Severity := Sqltypes.Severity d;
              Query.Code := Sqltypes.Code d;
              Query.Message := Sqltypes.Message d;
              Query.Detail := Sqltypes.Detail d;
              Query.Hint := Sqltypes.Hint d;
              Query.Position := Sqltypes.Position d;
              Query.InternalPosition := Sqltypes.InternalPosition d;
              Query.InternalQuery := Sqltypes.InternalQuery d;
              Query.Where := Sqltypes.Where d;
              Query.SchemaName := Sqltypes.Schema d;
              Query.TableName := Sqltypes.Table d;
              Query.ColumnName := Sqltypes.Column d;
              Query.DataTypeName := Sqltypes.DataType d;
              Query.ConstraintName := Sqltypes.Constraint d |}
  end.

(** [func PgDiagnosticFromProto(pd *query.PgDiagnostic) *PgDiagnostic] *)
Definition PgDiagnosticFromProto (pd : option Query.PgDiagnostic)
  : option Sqltypes.PgDiagnostic :=
  match pd with
  | None => None
  | Some pd =>
      Some {| Sqltypes.MessageType := byte_of_int32 (Query.MessageType pd);
              Sqltypes.Severity := Query.Severity pd;
              Sqltypes.Code := Query.Code pd;
              Sqltypes.Message := Query.Message pd;
              Sqltypes.Detail := Query.Detail pd;
              Sqltypes.Hint := Query.Hint pd;
              Sqltypes.Position := Query.Position pd;
              Sqltypes.InternalPosition := Query.InternalPosition pd;
              Sqltypes.InternalQuery := Query.InternalQuery pd;
              Sqltypes.Where := Query.Where pd;
              Sqltypes.Schema := Query.SchemaName pd;
              Sqltypes.Table := Query.TableName pd;
              Sqltypes.Column := Query.ColumnName pd;
              Sqltypes.DataType := Query.DataTypeName pd;
              Sqltypes.Constraint := Query.ConstraintName pd |}
  end.

(** Bytes a row puts on the wire, and the rows Go can hold in memory. *)
Definition payload (vs : list Value) : list Z :=
  concat (map (default []) vs).

Definition row_fits (r : Row) : Prop :=
  Z.of_nat (length (payload (Values r))) <= maxInt.

(** Bytes the lengths of a proto row ask for: the sum of the entries that
    are neither the NULL mark nor zero. *)
Definition declared (lengths : list Z) : Z :=
  foldr (λ l acc, if (l =? -1) || (l =? 0) then acc else l + acc) 0 lengths.

(** A row with a NULL, an empty and a two-byte value, and a proto row that
    declares five bytes over a two-byte buffer. *)
Definition sample_row : Row := mkRow [None; Some []; Some [104; 105]].

Definition overrun_row : Query.Row := Query.mkRow [5] (mkSlice [1; 2] []).

(** The lengths the wire contract allows: the NULL mark, zero, or a
    positive [int64]. *)
Definition wire_lengths (lengths : list Z) : Prop :=
  Forall (λ l, -1 <= l <= maxInt) lengths.

End Codec.

(** ** go/common/mterrors: PgError *)

Module Mterrors.

(** A non-nil Go pointer: the address gives identity, the pointee is what
    a dereference reads (the structs here are never written after
    construction). A possibly nil [*T] is an [option (ptr T)]. *)
Record ptr (T : Type) : Type := mkPtr { addr : positive; pointee : T }.
Arguments mkPtr {T} addr pointee.
Arguments addr {T} p.
Arguments pointee {T} p.

(** [type PgError struct { diag *sqltypes.PgDiagnostic; stack *stack }];
    the stack is the list of program counters [callers()] captured. *)
Record PgError : Type := mkPgError {
  diag : option Sqltypes.PgDiagnostic;
  stack : option (list Z)
}.

(** [func NewPgError(diag) *PgError]: [fresh] is the address of the new
    struct and [pcs] what [callers()] returns at the call. *)
Definition NewPgError (fresh : positive) (pcs : list Z)
    (d : option Sqltypes.PgDiagnostic) : option (ptr PgError) :=
  Some (mkPtr fresh (mkPgError d (Some pcs))).

Definition NewPgErrorFromDiagnostic (fresh : positive) (pcs : list Z)
    (d : option Sqltypes.PgDiagnostic) : option (ptr PgError) :=
  Some (mkPtr fresh (mkPgError d (Some pcs))).

(** [func (e *PgError) Diagnostic() *sqltypes.PgDiagnostic] *)
Definition Diagnostic (e : option (ptr PgError)) : option Sqltypes.PgDiagnostic :=
  match e with
  | None => None
  | Some p => diag (pointee p)
  end.

(** [func (e *PgError) Error() string] *)
Definition Error (e : option (ptr PgError)) : string :=
  match e with
  | None => "ERROR: unknown error"
  | Some p =>
      match diag (pointee p) with
      | None => "ERROR: unknown error"
      | Some d => (Sqltypes.Severity d +:+ ": ") +:+ Sqltypes.Message d
      end
  end.

(** [func (e *PgError) FullError() string] *)
Definition FullError (e : option (ptr PgError)) : string :=
  match e with
  | None => "ERROR: unknown error (SQLSTATE 00000)"
  | Some p =>
      match diag (pointee p) with
      | None => "ERROR: unknown error (SQLSTATE 00000)"
      | Some d =>
          ((((Sqltypes.Severity d +:+ ": ") +:+ Sqltypes.Message d)
              +:+ " (SQLSTATE ") +:+ Sqltypes.Code d) +:+ ")"
      end
  end.

(** A non-nil value of the interface [error], by dynamic type:
      - [*PgError] (the pointer inside may itself be nil),
      - a wrapper with one cause, as [fmt.Errorf("...: %w", err)] builds
        (its [Unwrap() error] returns the cause, which is never nil),
      - a plain [errors.New(text)].
    The interface value itself is an [option error]. *)
Inductive error : Type :=
| ErrPgError (e : option (ptr PgError))
| ErrWrap (msg : string) (cause : error)
| ErrNew (text : string).

(** [func (e *PgError) Unwrap() error] *)
Definition Unwrap (e : option (ptr PgError)) : option error := None.

(** The [Unwrap() error] method of an error value, where its dynamic type
    has one. *)
Definition unwrap_method (err : error) : option (option error) :=
  match err with
  | ErrPgError e => Some (Unwrap e)
  | ErrWrap _ cause => Some (Some cause)
  | ErrNew _ => None
  end.

(** [errors.As(err, &pgErr)] with [pgErr] of type [*PgError], for a
    non-nil [err]: the loop of the standard library, which first tests the
    dynamic type against the target's, then follows [Unwrap]. [Some e] is
    [true] with [pgErr] set to [e]; [None] is [false], [pgErr] untouched. *)
Fixpoint errors_As (err : error) : option (option (ptr PgError)) :=
  match err with
  | ErrPgError e => Some e
  | ErrWrap _ cause => errors_As cause
  | ErrNew _ => None
  end.

(** [func IsPgError(err error) bool] *)
Definition IsPgError (err : option error) : bool :=
  match err with
  | None => false
  | Some err => bool_decide (is_Some (errors_As err))
  end.

(** [func AsPgError(err error)], returning a [*PgError] and a [bool]. *)
Definition AsPgError (err : option error) : option (ptr PgError) * bool :=
  match err with
  | None => (None, false)
  | Some err =>
      match errors_As err with
      | Some pgErr => (pgErr, true)
      | None => (None, false)
      end
  end.

(** [fmt.Errorf(ctx_n + ": %w", ... fmt.Errorf(ctx_1 + ": %w", err))]:
    contexts added one after the other, the head of the list last. *)
Definition wrap_chain (ctxs : list string) (err : error) : error :=
  foldr ErrWrap err ctxs.

End Mterrors.

(** ** Go maps of settings *)

Module Settings.

(** [map[string]string]; [None] is the nil map, which reads as empty. *)
Abbreviation settings := (option (gmap string string)).

Definition entries (m : settings) : gmap string string := default ∅ m.

(** [len(m)] *)
Definition map_len (m : settings) : Z := Z.of_nat (size (entries m)).

(** [v, ok := m[k]] *)
Definition get (m : settings) (k : string) : option string := entries m !! k.

Definition keys (m : settings) : gset string := dom (entries m).

End Settings.

Import Settings.

(** ** go/services/multigateway: session state and the settings merge *)

Module Handler.

(** Modelled from the spec: [handler.MultiGatewayConnectionState] is not
    among the sources; the test of [mergedSettings] assigns its
    [StartupParams] field and fills the session settings through
    [SetSessionVariable]. Session State is "one per client connection:
    immutable-after-handshake startup-parameter map (name→value) and a
    mutable session-settings map (name→value)". *)
Record MultiGatewayConnectionState : Type := mkState {
  StartupParams : settings;
  SessionSettings : settings
}.

(** Modelled from the spec: the constructor is not among the sources; a
    new session has neither map. *)
Definition NewMultiGatewayConnectionState : MultiGatewayConnectionState :=
  mkState None None.

(** Modelled from the spec: [SetSessionVariable] is not among the sources;
    a session setting is "changed mid-session, overriding any startup value
    for that name". *)
Definition SetSessionVariable (k v : string) (st : MultiGatewayConnectionState)
  : MultiGatewayConnectionState :=
  mkState (StartupParams st) (Some (<[k:=v]> (entries (SessionSettings st)))).

End Handler.

Module Scatterconn.

(** Modelled from the spec: [mergedSettings] is not among the sources (only
    its test is). "1. If both startup-parameter and session-settings maps
    are empty/absent, return absent. 2. Else: start from a copy of startup
    parameters; overwrite with every session-settings entry." *)
Definition mergedSettings (state : Handler.MultiGatewayConnectionState) : settings :=
  if (map_len (Handler.StartupParams state) =? 0) &&
     (map_len (Handler.SessionSettings state) =? 0)
  then None
  else
    let merged := entries (Handler.StartupParams state) in
    Some (map_fold (λ k v merged, <[k:=v]> merged) merged
            (entries (Handler.SessionSettings state))).

End Scatterconn.

(** ** go/common/pgprotocol/client: the backend connection *)

Module Client.

(** Modelled from the spec: the [protocol] package with the method codes
    [AuthOk], [AuthCleartextPassword] and [AuthMD5Password] is not among
    the sources; the three codes are taken as given. *)
Record AuthCodes : Type := mkCodes {
  AuthOk : Z;
  AuthCleartextPassword : Z;
  AuthMD5Password : Z
}.

Definition is_int32 (z : Z) : Prop := - 2 ^ 31 <= z < 2 ^ 31.

(** The codes are three different [int32]. *)
Definition codes_ok (c : AuthCodes) : Prop :=
  (is_int32 (AuthOk c) ∧ is_int32 (AuthCleartextPassword c) ∧
   is_int32 (AuthMD5Password c)) ∧
  AuthOk c ≠ AuthCleartextPassword c ∧
  AuthOk c ≠ AuthMD5Password c ∧
  AuthCleartextPassword c ≠ AuthMD5Password c.

(** A method code that is none of the three. *)
Definition unknown_code (c : AuthCodes) (code : Z) : Prop :=
  code ≠ AuthOk c ∧ code ≠ AuthCleartextPassword c ∧ code ≠ AuthMD5Password c.

(** The codes of the PostgreSQL wire protocol. *)
Definition pg_codes : AuthCodes := mkCodes 0 3 5.

(** Modelled from the spec: [MessageWriter.WriteInt32] is not among the
    sources; the tests build request bodies with it. Four bytes, most
    significant first, two's complement. *)
Definition WriteInt32 (v : Z) : list Z :=
  let u := v mod 2 ^ 32 in
  [u / 2 ^ 24; (u / 2 ^ 16) mod 256; (u / 2 ^ 8) mod 256; u mod 256].

(** A message body being read: the bytes and how many were consumed. *)
Record MessageReader : Type := mkReader { buf : list Z; pos : nat }.

(** Modelled from the spec: the reader is not among the sources. Reads the
    "4-byte method code" as a signed big-endian integer and advances by
    four, or fails without advancing. *)
Definition ReadInt32 (r : MessageReader) : option (Z * MessageReader) :=
  match drop (pos r) (buf r) with
  | b0 :: b1 :: b2 :: b3 :: _ =>
      let u := ((b0 * 256 + b1) * 256 + b2) * 256 + b3 in
      Some (if u <? 2 ^ 31 then u else u - 2 ^ 32, mkReader (buf r) (pos r + 4))
  | _ => None
  end.

(** "State machine: AwaitingAuthRequest → {Authenticated | Rejected}". *)
Inductive AuthState : Type :=
| AwaitingAuthRequest
| Authenticated
| Rejected (message : string).

(** Decimal text of a method code, for the message that names it. *)
Definition itoa (z : Z) : string := DecimalString.NilZero.string_of_int (Z.to_int z).

(** Modelled from the spec: the security-policy rejection, whose message
    "includes" the scheme, "not supported" and "security". *)
Definition policy_rejection (scheme : string) : AuthState :=
  Rejected (scheme +:+ " authentication is not supported for security reasons").

(** Modelled from the spec: [Conn.handleAuthenticationRequest] is not among
    the sources (only its tests are). "body under 4 bytes → Rejected with a
    malformed-message error containing too short, before any method-code
    interpretation"; then, on the method code: "OK sentinel →
    Authenticated, no further bytes consumed"; "cleartext-password request
    → Rejected"; "MD5-password request → Rejected similarly"; "any other
    method code → Rejected with unsupported authentication method naming
    the numeric code". The result is the state reached and the reader as
    the step leaves it. *)
Definition handleAuthenticationRequest (codes : AuthCodes) (body : list Z)
  : AuthState * MessageReader :=
  let r := mkReader body 0 in
  if Z.of_nat (length body) <? 4 then
    (Rejected "authentication message too short", r)
  else
    match ReadInt32 r with
    | None => (Rejected "authentication message too short", r)
    | Some (code, r) =>
        if code =? AuthOk codes then (Authenticated, r)
        else if code =? AuthCleartextPassword codes then
          (policy_rejection "cleartext password", r)
        else if code =? AuthMD5Password codes then
          (policy_rejection "MD5 password", r)
        else
          (Rejected ("unsupported authentication method: " +:+ itoa code), r)
    end.

(** A step that ends in [Rejected] with a message containing each of the
    given fragments, having consumed [n] bytes of the body. *)
Definition rejects (step : AuthState * MessageReader) (fragments : list string)
    (n : nat) : Prop :=
  ∃ message, step.1 = Rejected message ∧ pos step.2 = n ∧
             Forall (λ f, Contains message f = true) fragments.

(** Modelled from the spec: [Conn] is not among the sources. The two views
    of §4.4: the durable "all parameters seen, latest wins" map and the
    "pending changes since last drain" map, nil until a change arrives. *)
Record Conn : Type := mkConn {
  serverParams : gmap string string;
  parameterStatus : settings
}.

(** Modelled from the spec: [Conn.handleParameterStatus] is not among the
    sources; this is its effect once the body is split into name and
    value: "each inbound parameter announcement (name, value) updates two
    views". *)
Definition handleParameterStatus (name value : string) (c : Conn) : Conn :=
  mkConn (<[name:=value]> (serverParams c))
         (Some (<[name:=value]> (entries (parameterStatus c)))).

(** Modelled from the spec: [Conn.GetParameterStatus] is not among the
    sources. "Reading the pending view is destructive: it returns the
    accumulated map (or empty/absent if nothing changed) and atomically
    clears it". *)
Definition GetParameterStatus (c : Conn) : settings * Conn :=
  (parameterStatus c, mkConn (serverParams c) None).

(** A batch of announcements, applied in order of arrival. *)
Definition announce (updates : list (string * string)) (c : Conn) : Conn :=
  foldl (λ c u, handleParameterStatus u.1 u.2 c) c updates.

(** The value the last announcement of [name] in a batch carried. *)
Fixpoint latest (name : string) (updates : list (string * string)) : option string :=
  match updates with
  | [] => None
  | (n, v) :: rest =>
      match latest name rest with
      | Some v' => Some v'
      | None => if decide (n = name) then Some v else None
      end
  end.

End Client.

(** ** go/common/sqltypes: query results *)

Module Results.

(** A loop [for i, x := range xs { ys[i] = f(x) }] whose body may panic:
    elements are visited in order and the first panic ends the loop. *)
Fixpoint for_each {A B : Type} (f : A → outcome B) (xs : list A) : outcome (list B) :=
  match xs with
  | [] => Returned []
  | x :: rest => y ← f x; ys ← for_each f rest; mret (y :: ys)
  end.

(** [type Result struct]. [Field] stands for [*query.Field], which the
    conversions copy without looking inside; [RowsAffected] is a [uint64];
    the entries of [Rows] and [Notices] are pointers and may be nil. *)
Record Result (Field : Type) : Type := mkResult {
  Fields : list Field;
  RowsAffected : Z;
  Rows : list (option Codec.Row);
  CommandTag : string;
  Notices : list (option Sqltypes.PgDiagnostic)
}.
Arguments mkResult {Field}.
Arguments Fields {Field}.
Arguments RowsAffected {Field}.
Arguments Rows {Field}.
Arguments CommandTag {Field}.
Arguments Notices {Field}.

(** [message QueryResult] of go/pb/query. *)
Record QueryResult (Field : Type) : Type := mkQueryResult {
  pFields : list Field;
  pRowsAffected : Z;
  pRows : list (option Query.Row);
  pCommandTag : string;
  pNotices : list (option Query.PgDiagnostic)
}.
Arguments mkQueryResult {Field}.
Arguments pFields {Field}.
Arguments pRowsAffected {Field}.
Arguments pRows {Field}.
Arguments pCommandTag {Field}.
Arguments pNotices {Field}.

(** [func (r *Result) ToProto() *query.QueryResult] *)
Definition ToProto {Field : Type} (r : option (Result Field))
  : outcome (option (QueryResult Field)) :=
  match r with
  | None => Returned None
  | Some r =>
      protoRows ← for_each Codec.ToProto (Rows r);
      let protoNotices := map Codec.PgDiagnosticToProto (Notices r) in
      mret (Some (mkQueryResult (Fields r) (RowsAffected r) protoRows
                    (CommandTag r) protoNotices))
  end.

(** [func ResultFromProto(pr *query.QueryResult) *Result] *)
Definition ResultFromProto {Field : Type} (pr : option (QueryResult Field))
  : outcome (option (Result Field)) :=
  match pr with
  | None => Returned None
  | Some pr =>
      rows ← for_each Codec.RowFromProto (pRows pr);
      let notices := map Codec.PgDiagnosticFromProto (pNotices pr) in
      mret (Some (mkResult (pFields pr) (pRowsAffected pr) rows
                    (pCommandTag pr) notices))
  end.

(** [func MakeRow(values [][]byte) *Row]: nil entries stay nil, the others
    are converted to [Value] as they are. *)
Definition MakeRow (values : list (option (list Z))) : option Codec.Row :=
  Some (Codec.mkRow
          (map (λ v, match v with None => None | Some b => Some b end) values)).

(** The rows and notices a result may hold for the conversions to be
    exact: every row present fits in memory, every notice present holds a
    byte as its message type. *)
Definition rows_fit (rows : list (option Codec.Row)) : Prop :=
  Forall (λ r, match r with None => True | Some r => Codec.row_fits r end) rows.

Definition notices_in_range (notices : list (option Sqltypes.PgDiagnostic)) : Prop :=
  Forall (λ d, match d with
               | None => True
               | Some d => 0 <= Sqltypes.MessageType d < 256
               end) notices.

(** The result of [TestNewPgError]'s kind of query: one row, one notice. *)
Definition sample_result : Result unit :=
  mkResult [tt] 1 [Some Codec.sample_row; None] "SELECT 1"
    [Some Sqltypes.undefined_table; None].

End Results.

(** ** errors.Is on chains that end in a PgError *)

Module ErrorsIs.

Import Mterrors.

(** [p == q] on two [*PgError]: both nil, or the same address. *)
Definition same_pointer (p q : option (ptr PgError)) : bool :=
  match p, q with
  | None, None => true
  | Some p, Some q => bool_decide (addr p = addr q)
  | _, _ => false
  end.

(** [err == target] for an error value against a target of dynamic type
    [*PgError]: equal dynamic types and equal pointers. *)
Definition same_error (err : error) (target : option (ptr PgError)) : bool :=
  match err with
  | ErrPgError e => same_pointer e target
  | _ => false
  end.

(** The loop of [errors.Is(err, target)] of the standard library for a
    non-nil [err] and a target of dynamic type [*PgError] (comparable; none
    of the error types here has an [Is] method): compare, else follow
    [Unwrap], stop on a nil cause or where there is no [Unwrap] method.
    [fuel] bounds the iterations; [None] is fuel exhausted. *)
Fixpoint is_loop (fuel : nat) (err : error) (target : option (ptr PgError))
  : option bool :=
  match fuel with
  | O => None
  | S fuel =>
      if same_error err target then Some true
      else match unwrap_method err with
           | Some (Some cause) => is_loop fuel cause target
           | Some None => Some false
           | None => Some false
           end
  end.

(** Number of links of a chain. *)
Fixpoint depth (err : error) : nat :=
  match err with
  | ErrWrap _ cause => S (depth cause)
  | _ => 1
  end.

End ErrorsIs.

(** ** Vocabulary for the wire format *)

Module Wire.

(** The backing array of a slice, from its first element to its capacity. *)
Definition backing (s : byte_slice) : list Z := (elems s ++ spare s)%list.

(** Lengths as Go holds them: any [int64]. *)
Definition int64_lengths (lengths : list Z) : Prop :=
  Forall (λ l, minInt <= l <= maxInt) lengths.

(** A transport diagnostic with its message type cut down to a byte. *)
Definition truncated (pd : Query.PgDiagnostic) : Query.PgDiagnostic :=
  Query.mkDiag (Query.MessageType pd mod 256)
    (Query.Severity pd) (Query.Code pd) (Query.Message pd) (Query.Detail pd)
    (Query.Hint pd) (Query.Position pd) (Query.InternalPosition pd)
    (Query.InternalQuery pd) (Query.Where pd) (Query.SchemaName pd)
    (Query.TableName pd) (Query.ColumnName pd) (Query.DataTypeName pd)
    (Query.ConstraintName pd).

(** [sample_row] as [ToProto] writes it. *)
Definition sample_proto_row : Query.Row :=
  Query.mkRow [-1; 0; 2] (mkSlice [104; 105] []).

(** One NULL column, and one empty column. *)
Definition null_row : Codec.Row := Codec.mkRow [None].
Definition empty_row : Codec.Row := Codec.mkRow [Some []].

End Wire.

(** * Properties *)

(** ** Strings *)

Section StringFacts.

Lemma append_cons (x : ascii) (a b : string) :
  String x a +:+ b = String x (a +:+ b).
Proof. reflexivity. Qed.

Lemma append_nil_l (b : string) : "" +:+ b = b.
Proof. reflexivity. Qed.

Lemma append_assoc (a b c : string) : (a +:+ b) +:+ c = a +:+ (b +:+ c).
Proof.
  induction a as [|x a IH]; [reflexivity |].
  rewrite !append_cons. f_equal. exact IH.
Qed.

Lemma prefix_nil (s : string) : String.prefix "" s = true.
Proof. now destruct s. Qed.

Lemma prefix_append (a b : string) : String.prefix a (a +:+ b) = true.
Proof.
  induction a as [|x a IH].
  - apply prefix_nil.
  - rewrite append_cons. simpl.
    destruct (Ascii.ascii_dec x x); [exact IH | congruence].
Qed.

Lemma prefix_weaken (u v w : string) :
  String.prefix u v = true → String.prefix u (v +:+ w) = true.
Proof.
  revert v. induction u as [|c u IHu]; intros v Hv.
  - apply prefix_nil.
  - destruct v as [|c' v]; [discriminate |].
    rewrite append_cons. simpl in *.
    destruct (Ascii.ascii_dec c c'); [now apply IHu | discriminate].
Qed.

Lemma Contains_prefix (s sub : string) :
  String.prefix sub s = true → Contains s sub = true.
Proof. intros H. destruct s; cbn [Contains]; rewrite H; reflexivity. Qed.

Lemma Contains_append_l (a s sub : string) :
  Contains s sub = true → Contains (a +:+ s) sub = true.
Proof.
  intros H. induction a as [|x a IH]; [exact H |].
  rewrite append_cons. cbn [Contains]. rewrite IH. apply orb_true_r.
Qed.

Lemma Contains_append_r (s b sub : string) :
  Contains s sub = true → Contains (s +:+ b) sub = true.
Proof.
  induction s as [|x s IH]; intros H.
  - destruct sub; simpl in H; [| discriminate].
    apply Contains_prefix, prefix_nil.
  - cbn [Contains] in H. apply orb_true_iff in H as [H | H].
    + apply Contains_prefix. now apply (prefix_weaken sub (String x s) b).
    + rewrite append_cons. cbn [Contains]. rewrite (IH H). apply orb_true_r.
Qed.

End StringFacts.

(** ** The diagnostic model *)

Section DiagnosticFacts.

Import Sqltypes.

Example SQLSTATEClass_42P01 : SQLSTATEClass undefined_table = "42".
Proof. reflexivity. Qed.

Example IsClass_42 : IsClass undefined_table "42" = true ∧ IsClass undefined_table "23" = false.
Proof. split; reflexivity. Qed.

Example Validate_reports_all :
  Validate (Some (mkDiag 0 "" "42P01" "" "" "" 0 0 "" "" "" "" "" "" "")) =
  Some "invalid PgDiagnostic: MessageType is unset (0x00): must be 'E' or 'N'; Severity is empty; Message is empty".
Proof. reflexivity. Qed.

Example Validate_bad_tag :
  Validate (Some (mkDiag 88 "ERROR" "42P01" "m" "" "" 0 0 "" "" "" "" "" "" "")) =
  Some "invalid PgDiagnostic: invalid MessageType 'X' (0x58): must be 'E' or 'N'".
Proof. reflexivity. Qed.

Lemma SQLSTATEClass_cases (d : PgDiagnostic) :
  SQLSTATEClass d =
  match Code d with
  | String a (String b _) => String a (String b "")
  | _ => ""
  end.
Proof.
  unfold SQLSTATEClass, len, str_prefix.
  destruct (Code d) as [|a [|b rest]]; try reflexivity.
  cbn [String.length]. case_match eqn:Hlt; [apply Z.ltb_lt in Hlt; lia |].
  simpl. now destruct rest.
Qed.

Lemma IsFatal_iff (d : PgDiagnostic) :
  IsFatal d = true ↔ Severity d = "FATAL" ∨ Severity d = "PANIC".
Proof.
  unfold IsFatal. rewrite orb_true_iff, !bool_decide_eq_true. reflexivity.
Qed.

(** C9. The class of a diagnostic is the first two bytes of its code and
    the empty string when the code has fewer than two, so it is "42" for
    "42P01" and "" for ""; [IsClass] is equality with that prefix;
    [IsFatal] is true for the severities FATAL and PANIC and for no other,
    in particular not for ERROR. *)
Theorem classify_and_fatality :
  (∀ d, SQLSTATEClass (with_Code "42P01" d) = "42") ∧
  (∀ d, SQLSTATEClass (with_Code "" d) = "") ∧
  (∀ d, SQLSTATEClass d =
        match Code d with
        | String a (String b _) => String a (String b "")
        | _ => ""
        end) ∧
  (∀ d class, IsClass d class = true ↔ SQLSTATEClass d = class) ∧
  (∀ d, IsFatal (with_Severity "FATAL" d) = true) ∧
  (∀ d, IsFatal (with_Severity "PANIC" d) = true) ∧
  (∀ d, IsFatal (with_Severity "ERROR" d) = false) ∧
  (∀ d, IsFatal d = true ↔ Severity d = "FATAL" ∨ Severity d = "PANIC").
Proof.
  repeat split; try reflexivity.
  - apply SQLSTATEClass_cases.
  - unfold IsClass. now rewrite bool_decide_eq_true.
  - unfold IsClass. now rewrite bool_decide_eq_true.
  - apply IsFatal_iff.
  - apply IsFatal_iff.
Qed.

Lemma FullError_short (d : option PgDiagnostic) :
  FullError d = Error d +:+ " (SQLSTATE " +:+ shown_code d +:+ ")".
Proof.
  destruct d as [d|]; [| reflexivity].
  unfold FullError, Error, shown_code. now rewrite !append_assoc.
Qed.

Lemma PgError_Error_Diagnostic (e : option (Mterrors.ptr Mterrors.PgError)) :
  Mterrors.Error e = Error (Mterrors.Diagnostic e) ∧
  Mterrors.FullError e = FullError (Mterrors.Diagnostic e).
Proof.
  destruct e as [[a [[d|] st]]|]; split; reflexivity.
Qed.

(** C7. Both renderings are defined on every receiver. Where a diagnostic
    is present the short form is "SEVERITY: message"; where it is absent (a
    nil [*PgDiagnostic], a nil [*PgError], a [PgError] whose diagnostic is
    nil) it is "ERROR: unknown error". The full form is in every case the
    short form followed by " (SQLSTATE code)", the code being "00000" in
    the absent case: an absent diagnostic renders, in both forms, as the
    generic one with severity ERROR, message "unknown error" and code
    "00000". *)
Theorem rendering_total :
  (∀ d : PgDiagnostic, Error (Some d) = Severity d +:+ ": " +:+ Message d) ∧
  Error None = "ERROR: unknown error" ∧
  (∀ d : option PgDiagnostic,
     FullError d = Error d +:+ " (SQLSTATE " +:+ shown_code d +:+ ")") ∧
  FullError None = "ERROR: unknown error (SQLSTATE 00000)" ∧
  (∀ a d st, Mterrors.Error (Some (Mterrors.mkPtr a (Mterrors.mkPgError (Some d) st)))
             = Severity d +:+ ": " +:+ Message d) ∧
  Mterrors.Error None = "ERROR: unknown error" ∧
  (∀ a st, Mterrors.Error (Some (Mterrors.mkPtr a (Mterrors.mkPgError None st)))
           = "ERROR: unknown error") ∧
  (∀ e, Mterrors.FullError e =
        Mterrors.Error e +:+ " (SQLSTATE " +:+ shown_code (Mterrors.Diagnostic e) +:+ ")") ∧
  Mterrors.FullError None = "ERROR: unknown error (SQLSTATE 00000)" ∧
  (∀ a st, Mterrors.FullError (Some (Mterrors.mkPtr a (Mterrors.mkPgError None st)))
           = "ERROR: unknown error (SQLSTATE 00000)") ∧
  (Error None = Error (Some unknown_error) ∧
   FullError None = FullError (Some unknown_error)).
Proof.
  repeat split; try reflexivity.
  - intros d. unfold Error. apply append_assoc.
  - apply FullError_short.
  - intros a d st. unfold Mterrors.Error. simpl. apply append_assoc.
  - intros e. destruct (PgError_Error_Diagnostic e) as [-> ->].
    apply FullError_short.
Qed.

Lemma issues_describe (d : PgDiagnostic) :
  issues d = map (describe d) (violated d).
Proof.
  unfold issues, violated, all_constraints.
  unfold issue_MessageType, issue_Severity, issue_Code, issue_Message.
  rewrite !filter_cons, filter_nil.
  unfold holds, describe, MsgErrorResponse, MsgNoticeResponse.
  destruct (Z.eqb_spec (MessageType d) 69), (Z.eqb_spec (MessageType d) 78),
    (Z.eqb_spec (MessageType d) 0);
    repeat case_bool_decide; repeat case_decide; simpl;
    try reflexivity; try lia; try tauto; try congruence.
Qed.

Lemma violated_spec (d : PgDiagnostic) (c : constraint) :
  c ∈ violated d ↔ ¬ holds d c.
Proof.
  unfold violated. rewrite list_elem_of_filter.
  split; [tauto |]. intros H. split; [exact H |].
  destruct c; unfold all_constraints; set_solver.
Qed.

Lemma violated_nil (d : PgDiagnostic) :
  violated d = [] ↔ ∀ c, holds d c.
Proof.
  split.
  - intros Hnil c. destruct (decide (holds d c)) as [|Hn]; [assumption |].
    apply violated_spec in Hn. rewrite Hnil in Hn. set_solver.
  - intros Hall. destruct (violated d) as [|c l] eqn:E; [reflexivity |].
    assert (Hc : c ∈ violated d) by (rewrite E; set_solver).
    apply violated_spec in Hc. destruct (Hc (Hall c)).
Qed.

(** C8. On a diagnostic, [Validate] reports every violated constraint among
    the four (class tag 'E' or 'N', severity, code and message not empty):
    its error text is "invalid PgDiagnostic: " followed by one description
    per violated constraint, in the order of the checks and separated by
    "; ". It returns no error exactly when all four constraints hold. *)
Theorem Validate_enumerates (d : PgDiagnostic) :
  Validate (Some d) =
    (if decide (violated d = []) then None
     else Some ("invalid PgDiagnostic: " +:+ Join (map (describe d) (violated d)) "; ")) ∧
  (∀ c, c ∈ violated d ↔ ¬ holds d c) ∧
  (Validate (Some d) = None ↔
     (MessageType d = MsgErrorResponse ∨ MessageType d = MsgNoticeResponse) ∧
     Severity d ≠ "" ∧ Code d ≠ "" ∧ Message d ≠ "").
Proof.
  assert (HV : Validate (Some d) =
    (if decide (violated d = []) then None
     else Some ("invalid PgDiagnostic: " +:+ Join (map (describe d) (violated d)) "; "))).
  { unfold Validate. rewrite issues_describe.
    destruct (violated d) as [|c l]; [reflexivity |].
    rewrite decide_False by discriminate. reflexivity. }
  split; [exact HV |]. split; [apply violated_spec |].
  rewrite HV. case_decide as Hv.
  - split; [intros _ | reflexivity].
    rewrite violated_nil in Hv.
    exact (conj (Hv TagValid) (conj (Hv SeverityPresent)
            (conj (Hv CodePresent) (Hv MessagePresent)))).
  - split; [discriminate |]. intros (H1 & H2 & H3 & H4).
    exfalso. apply Hv, violated_nil. intros []; assumption.
Qed.

End DiagnosticFacts.

(** ** PgError in an error chain *)

Section ErrorChainFacts.

Import Mterrors.

Lemma errors_As_wrap_chain (ctxs : list string) (err : error) :
  errors_As (wrap_chain ctxs err) = errors_As err.
Proof.
  induction ctxs as [|ctx ctxs IH]; [reflexivity | exact IH].
Qed.

Lemma AsPgError_wrap_chain (ctxs : list string) (err : error) :
  AsPgError (Some (wrap_chain ctxs err)) = AsPgError (Some err).
Proof. unfold AsPgError. now rewrite errors_As_wrap_chain. Qed.

(** [TestAsPgError]: direct, wrapped, not a PgError, nil. *)
Example AsPgError_test (a : positive) (pcs : list Z) :
  let pgErr := NewPgErrorFromDiagnostic a pcs (Some Sqltypes.undefined_table) in
  AsPgError (Some (ErrPgError pgErr)) = (pgErr, true) ∧
  AsPgError (Some (ErrWrap "wrapped" (ErrPgError pgErr))) = (pgErr, true) ∧
  AsPgError (Some (ErrNew "not a pg error")) = (None, false) ∧
  AsPgError None = (None, false).
Proof. repeat split. Qed.

(** Two errors built from the same diagnostic are different pointers. *)
Example NewPgError_identity (a b : positive) (pcs : list Z) d :
  a ≠ b → NewPgError a pcs d ≠ NewPgError b pcs d.
Proof. intros Hab [=]. contradiction. Qed.

(** C6. A [PgError] ends every error chain: its [Unwrap] returns nil for
    every receiver, so the chain walk finds no cause behind it; and
    whatever contexts are wrapped around it, [AsPgError] succeeds and
    returns the very pointer that was wrapped (same address, hence the same
    struct), while the same chain around an error that is no [PgError]
    yields nothing. *)
Theorem PgError_is_leaf :
  (∀ e : option (ptr PgError), Unwrap e = None) ∧
  (∀ e : option (ptr PgError), unwrap_method (ErrPgError e) = Some None) ∧
  (∀ (e : ptr PgError) (ctxs : list string),
     AsPgError (Some (wrap_chain ctxs (ErrPgError (Some e)))) = (Some e, true) ∧
     IsPgError (Some (wrap_chain ctxs (ErrPgError (Some e)))) = true) ∧
  (∀ (text : string) (ctxs : list string),
     AsPgError (Some (wrap_chain ctxs (ErrNew text))) = (None, false)).
Proof.
  split; [reflexivity |]. split; [reflexivity |]. split.
  - intros e ctxs. split.
    + rewrite AsPgError_wrap_chain. reflexivity.
    + unfold IsPgError. rewrite errors_As_wrap_chain. reflexivity.
  - intros text ctxs. rewrite AsPgError_wrap_chain. reflexivity.
Qed.

End ErrorChainFacts.

(** ** The row codec *)

Section CodecFacts.

Import Codec.

Lemma wrap64_small (z : Z) : minInt <= z <= maxInt → wrap64 z = z.
Proof.
  unfold wrap64, minInt, maxInt. intros H.
  rewrite Z.mod_small by lia. lia.
Qed.

Lemma wrap64_over (z : Z) : maxInt < z <= 2 * maxInt → wrap64 z = z - 2 ^ 64.
Proof.
  unfold wrap64, maxInt. intros H.
  replace (z + 2 ^ 63) with ((z + 2 ^ 63 - 2 ^ 64) + 1 * 2 ^ 64) by lia.
  rewrite Z.mod_add by lia. rewrite Z.mod_small by lia. lia.
Qed.

Lemma payload_cons (v : Value) (vs : list Value) :
  payload (v :: vs) = (default [] v ++ payload vs)%list.
Proof. reflexivity. Qed.

Lemma bind_Returned {A B} (a : A) (k : A → outcome B) :
  (Returned a ≫= k) = k a.
Proof. reflexivity. Qed.

Lemma bind_Panicked {A B} (m : string) (k : A → outcome B) :
  (Panicked m ≫= k) = Panicked m.
Proof. reflexivity. Qed.

(** The first loop of [ToProto] counts the payload. *)
Lemma totalLen_payload (vs : list Value) (acc : Z) :
  0 <= acc →
  acc + Z.of_nat (length (payload vs)) <= maxInt →
  fold_left totalLen_step vs acc = acc + Z.of_nat (length (payload vs)).
Proof.
  revert acc. induction vs as [|v vs IH]; intros acc Hacc Hfit.
  - simpl. lia.
  - rewrite payload_cons, length_app in Hfit.
    rewrite payload_cons, length_app. cbn [fold_left].
    destruct v as [b|]; cbn [totalLen_step from_option id] in *.
    + rewrite wrap64_small by (unfold minInt, maxInt in *; lia).
      rewrite IH by lia. lia.
    + rewrite IH by (simpl in *; lia). simpl. lia.
Qed.

(** The second loop of [ToProto] fills the array [make] allocated. *)
Lemma append_payload (vs : list Value) (pre : list Z) (k : nat) :
  (length (payload vs) <= k)%nat →
  fold_left append_step vs (mkSlice pre (replicate k 0)) =
  mkSlice (pre ++ payload vs) (replicate (k - length (payload vs)) 0).
Proof.
  revert pre k. induction vs as [|v vs IH]; intros pre k Hk.
  - simpl. rewrite app_nil_r, Nat.sub_0_r. reflexivity.
  - rewrite payload_cons, length_app in Hk. rewrite payload_cons.
    cbn [fold_left]. destruct v as [b|]; cbn [append_step from_option id] in *.
    + unfold append_bytes, slice_cap. cbn [elems spare].
      rewrite length_replicate.
      case_match eqn:Hle; [| apply Z.leb_gt in Hle; lia].
      rewrite drop_replicate. rewrite IH by lia.
      rewrite length_app, <- app_assoc. do 2 f_equal. lia.
    + rewrite IH by (simpl in Hk; lia). reflexivity.
Qed.

Lemma reslice_middle (pre b post sp : list Z) :
  Z.of_nat (length pre + length b) <= maxInt →
  reslice (mkSlice (pre ++ b ++ post) sp)
    (Z.of_nat (length pre)) (Z.of_nat (length pre) + Z.of_nat (length b)) =
  Returned (mkSlice b (post ++ sp)).
Proof.
  intros Hfit. unfold reslice, slice_cap. cbn [elems spare].
  rewrite !length_app.
  case_match eqn:Hb.
  - f_equal. f_equal.
    + replace (Z.to_nat (Z.of_nat (length pre) + Z.of_nat (length b) - Z.of_nat (length pre)))
        with (length b) by lia.
      rewrite Nat2Z.id, <- !app_assoc, drop_app_length.
      rewrite take_app_length. reflexivity.
    + replace (Z.to_nat (Z.of_nat (length pre) + Z.of_nat (length b)))
        with (length (pre ++ b)) by (rewrite length_app; lia).
      rewrite <- !app_assoc. rewrite (app_assoc pre b), drop_app_length.
      reflexivity.
  - rewrite !andb_false_iff, !Z.leb_gt in Hb. lia.
Qed.

(** The loop of [RowFromProto] reads back what [ToProto] wrote. *)
Lemma decode_payload (vs : list Value) (pre post sp : list Z) :
  Z.of_nat (length pre + length (payload vs)) <= maxInt →
  decode_from (mkSlice (pre ++ payload vs ++ post) sp)
    (Z.of_nat (length pre)) (map length_of vs) = Returned vs.
Proof.
  revert pre. induction vs as [|v vs IH]; intros pre Hfit; [reflexivity |].
  rewrite payload_cons, length_app in Hfit. rewrite payload_cons.
  cbn [map decode_from]. destruct v as [b|]; cbn [length_of from_option id] in *.
  - destruct b as [|x b].
    + simpl. rewrite IH by (simpl in Hfit; lia). reflexivity.
    + case_match eqn:H1; [apply Z.eqb_eq in H1; simpl in H1; lia |].
      case_match eqn:H0; [apply Z.eqb_eq in H0; simpl in H0; lia |].
      rewrite wrap64_small by (unfold minInt, maxInt in *; lia).
      rewrite <- app_assoc, reslice_middle by lia.
      rewrite bind_Returned. cbn [elems].
      specialize (IH (pre ++ x :: b)%list).
      rewrite length_app, <- app_assoc in IH.
      rewrite <- Nat2Z.inj_add, IH by lia. reflexivity.
  - simpl. rewrite IH by (simpl in Hfit; lia). reflexivity.
Qed.

Lemma ToProto_shape (r : Row) :
  row_fits r →
  ToProto (Some r) =
  Returned (Some (Query.mkRow (map length_of (Values r))
                    (mkSlice (payload (Values r)) []))).
Proof.
  unfold row_fits, ToProto. intros Hfit.
  rewrite totalLen_payload by lia. rewrite Z.add_0_l.
  unfold make_bytes. case_match eqn:Hneg; [apply Z.ltb_lt in Hneg; lia |].
  rewrite bind_Returned, Nat2Z.id, append_payload by lia.
  rewrite Nat.sub_diag. reflexivity.
Qed.

Lemma Row_round_trip (r : Row) :
  row_fits r → (ToProto (Some r) ≫= RowFromProto) = Returned (Some r).
Proof.
  intros Hfit. rewrite ToProto_shape, bind_Returned by assumption.
  unfold RowFromProto. cbn [Query.Values Query.Lengths].
  pose proof (decode_payload (Values r) [] [] []) as Hd.
  rewrite app_nil_r, app_nil_l in Hd.
  change (Z.of_nat (length (@nil Z))) with 0 in Hd.
  rewrite Hd by exact Hfit. destruct r. reflexivity.
Qed.

Lemma PgDiagnostic_round_trip (d : Sqltypes.PgDiagnostic) :
  0 <= Sqltypes.MessageType d < 256 →
  PgDiagnosticFromProto (PgDiagnosticToProto (Some d)) = Some d.
Proof.
  intros Hb. destruct d. cbn in *. unfold byte_of_int32, int32_of_byte.
  rewrite Z.mod_small by lia. reflexivity.
Qed.

Example sample_row_on_the_wire :
  ToProto (Some sample_row) =
  Returned (Some (Query.mkRow [-1; 0; 2] (mkSlice [104; 105] []))).
Proof. reflexivity. Qed.

(** C2. A row that fits in memory comes back unchanged from [ToProto]
    followed by [RowFromProto]: the same values in the same positions, a
    NULL still a NULL and an empty byte sequence still empty; a nil row
    comes back nil. A diagnostic comes back from [PgDiagnosticToProto]
    followed by [PgDiagnosticFromProto] with its message type and its
    fourteen fields unchanged, and nil comes back nil. *)
Theorem proto_round_trip (r : Row) (d : Sqltypes.PgDiagnostic) :
  row_fits r →
  Sqltypes.diag_in_range d →
  (ToProto (Some r) ≫= RowFromProto) = Returned (Some r) ∧
  (ToProto None ≫= RowFromProto) = Returned None ∧
  PgDiagnosticFromProto (PgDiagnosticToProto (Some d)) = Some d ∧
  PgDiagnosticFromProto (PgDiagnosticToProto None) = None.
Proof.
  intros Hr (Hb & _). split; [now apply Row_round_trip |].
  split; [reflexivity |]. split; [now apply PgDiagnostic_round_trip | reflexivity].
Qed.

Lemma proto_round_trip_witness :
  row_fits sample_row ∧
  Sqltypes.diag_in_range Sqltypes.undefined_table ∧
  (ToProto (Some sample_row) ≫= RowFromProto) = Returned (Some sample_row) ∧
  PgDiagnosticFromProto (PgDiagnosticToProto (Some Sqltypes.undefined_table))
    = Some Sqltypes.undefined_table.
Proof.
  assert (H1 : row_fits sample_row) by (vm_compute; discriminate).
  assert (H2 : Sqltypes.diag_in_range Sqltypes.undefined_table)
    by (vm_compute; intuition discriminate).
  destruct (proto_round_trip sample_row Sqltypes.undefined_table H1 H2)
    as (Hrow & _ & Hdiag & _).
  exact (conj H1 (conj H2 (conj Hrow Hdiag))).
Defined.

Lemma declared_cons (l : Z) (rest : list Z) :
  declared (l :: rest) =
  if (l =? -1) || (l =? 0) then declared rest else l + declared rest.
Proof. reflexivity. Qed.

Lemma declared_nonneg (lengths : list Z) :
  wire_lengths lengths → 0 <= declared lengths.
Proof.
  induction 1 as [|l rest Hl _ IH]; [reflexivity |].
  rewrite declared_cons.
  destruct (Z.eqb_spec l (-1)), (Z.eqb_spec l 0); simpl; lia.
Qed.

Lemma reslice_inside (vals : byte_slice) (lo hi : Z) :
  0 <= lo <= hi → hi <= slice_cap vals →
  ∃ v, reslice vals lo hi = Returned v.
Proof.
  intros Hlo Hhi. unfold reslice.
  case_match eqn:Hb; [eauto |].
  rewrite !andb_false_iff, !Z.leb_gt in Hb. lia.
Qed.

Lemma reslice_outside (vals : byte_slice) (lo hi : Z) :
  hi < lo ∨ slice_cap vals < hi →
  reslice vals lo hi = Panicked "slice bounds out of range".
Proof.
  intros Hout. unfold reslice.
  case_match eqn:Hb; [| reflexivity].
  rewrite !andb_true_iff, !Z.leb_le in Hb. lia.
Qed.

(** Lengths that ask for more than the capacity stop the walk. *)
Lemma decode_overrun (vals : byte_slice) (lengths : list Z) (offset : Z) :
  slice_cap vals <= maxInt →
  wire_lengths lengths →
  0 <= offset <= slice_cap vals →
  slice_cap vals < offset + declared lengths →
  decode_from vals offset lengths = Panicked "slice bounds out of range".
Proof.
  intros Hcap Hwire. revert offset.
  induction Hwire as [|l rest Hl Hrest IH]; intros offset Hoff Hover.
  - simpl in Hover. lia.
  - rewrite declared_cons in Hover. cbn [decode_from].
    destruct (Z.eqb_spec l (-1)) as [|Hn1]; simpl in Hover.
    { rewrite IH by assumption. reflexivity. }
    destruct (Z.eqb_spec l 0) as [|Hn0]; simpl in Hover.
    { rewrite IH by assumption. reflexivity. }
    destruct (Z_le_gt_dec (offset + l) (slice_cap vals)) as [Hin | Hout].
    + rewrite wrap64_small by (unfold minInt, maxInt in *; lia).
      destruct (reslice_inside vals offset (offset + l)) as [v ->]; [lia .. |].
      rewrite bind_Returned, IH by lia. reflexivity.
    + rewrite reslice_outside; [reflexivity |].
      destruct (Z_le_gt_dec (offset + l) maxInt) as [Hs | Hw].
      * rewrite wrap64_small by (unfold minInt, maxInt in *; lia). lia.
      * rewrite wrap64_over by (unfold maxInt in *; lia).
        unfold maxInt in *. lia.
Qed.

(** Lengths that fit in the capacity are walked to the end. *)
Lemma decode_fits (vals : byte_slice) (lengths : list Z) (offset : Z) :
  slice_cap vals <= maxInt →
  wire_lengths lengths →
  0 <= offset →
  offset + declared lengths <= slice_cap vals →
  ∃ vs, decode_from vals offset lengths = Returned vs.
Proof.
  intros Hcap Hwire. revert offset.
  induction Hwire as [|l rest Hl Hrest IH]; intros offset Hoff Hfit.
  - eexists. reflexivity.
  - rewrite declared_cons in Hfit. cbn [decode_from].
    pose proof (declared_nonneg rest Hrest) as Hnn.
    destruct (Z.eqb_spec l (-1)) as [|Hn1]; simpl in Hfit.
    { destruct (IH offset) as [vs ->]; [assumption .. |]. eexists. reflexivity. }
    destruct (Z.eqb_spec l 0) as [|Hn0]; simpl in Hfit.
    { destruct (IH offset) as [vs ->]; [assumption .. |]. eexists. reflexivity. }
    rewrite wrap64_small by (unfold minInt, maxInt in *; lia).
    destruct (reslice_inside vals offset (offset + l)) as [v ->]; [lia .. |].
    destruct (IH (offset + l)) as [vs ->]; [lia .. |].
    eexists. reflexivity.
Qed.

(** Bounds are checked against the capacity: a length that runs past
    [len] but not past [cap] reads the backing array and returns. *)
Example RowFromProto_reads_spare :
  RowFromProto (Some (Query.mkRow [3] (mkSlice [1; 2] [0]))) =
  Returned (Some (mkRow [Some [1; 2; 0]])).
Proof. reflexivity. Qed.

(** The claim C3 as the specification words it, that an overrun is
    answered by a signalled error and not by a crash, fails on
    [overrun_row]: five bytes declared, two available, and the call
    panics. *)
Lemma RowFromProto_overrun_crashes :
  slice_cap (Query.Values overrun_row) < declared (Query.Lengths overrun_row) ∧
  RowFromProto (Some overrun_row) = Panicked "slice bounds out of range" ∧
  ¬ (∃ result, RowFromProto (Some overrun_row) = Returned result).
Proof.
  split; [reflexivity |]. split; [reflexivity |].
  intros [result H]. discriminate H.
Qed.

(** C3, amended. [RowFromProto] has no error result. On a proto row whose
    lengths follow the wire contract it walks the lengths in order with a
    running offset; if they declare more bytes than the buffer's capacity
    the slice expression panics ("slice bounds out of range") and nothing
    is returned, and if they fit a row is returned. *)
Theorem RowFromProto_overrun_panics (pr : Query.Row) :
  slice_cap (Query.Values pr) <= maxInt →
  wire_lengths (Query.Lengths pr) →
  (slice_cap (Query.Values pr) < declared (Query.Lengths pr) ↔
   RowFromProto (Some pr) = Panicked "slice bounds out of range") ∧
  (declared (Query.Lengths pr) <= slice_cap (Query.Values pr) ↔
   ∃ r, RowFromProto (Some pr) = Returned (Some r)).
Proof.
  intros Hcap Hwire. unfold RowFromProto.
  pose proof (declared_nonneg _ Hwire) as Hnn.
  destruct (Z_le_gt_dec (declared (Query.Lengths pr)) (slice_cap (Query.Values pr)))
    as [Hfit | Hover].
  - destruct (decode_fits (Query.Values pr) (Query.Lengths pr) 0)
      as [vs Hvs]; [assumption | assumption | lia | lia |].
    rewrite Hvs. split; split; try lia; try discriminate.
    intros _. eexists. reflexivity.
  - rewrite (decode_overrun (Query.Values pr) (Query.Lengths pr) 0)
      by (try assumption; unfold slice_cap in *; lia).
    split; split; try lia; try reflexivity.
    intros [r Hr]. discriminate Hr.
Qed.

Lemma RowFromProto_overrun_panics_witness :
  slice_cap (Query.Values overrun_row) <= maxInt ∧
  wire_lengths (Query.Lengths overrun_row) ∧
  (slice_cap (Query.Values overrun_row) < declared (Query.Lengths overrun_row) ↔
   RowFromProto (Some overrun_row) = Panicked "slice bounds out of range").
Proof.
  assert (H1 : slice_cap (Query.Values overrun_row) <= maxInt)
    by (vm_compute; discriminate).
  assert (H2 : wire_lengths (Query.Lengths overrun_row)).
  { repeat constructor; vm_compute; discriminate. }
  exact (conj H1 (conj H2 (proj1 (RowFromProto_overrun_panics overrun_row H1 H2)))).
Defined.

End CodecFacts.

(** ** The settings merge *)

Section MergeFacts.

Import Handler Scatterconn.

Lemma overwrite_is_union (startup session : gmap string string) :
  map_fold (λ k v merged, <[k:=v]> merged) startup session = session ∪ startup.
Proof.
  apply (map_fold_weak_ind (λ r m, r = m ∪ startup)).
  - now rewrite (left_id_L ∅ (∪)).
  - intros k v m r _ ->. now rewrite insert_union_l.
Qed.

Lemma map_len_0 (m : settings) : map_len m = 0 ↔ entries m = ∅.
Proof.
  unfold map_len. rewrite <- map_size_empty_iff. lia.
Qed.

Lemma mergedSettings_cases (state : MultiGatewayConnectionState) :
  mergedSettings state =
  if decide (entries (StartupParams state) = ∅ ∧ entries (SessionSettings state) = ∅)
  then None
  else Some (entries (SessionSettings state) ∪ entries (StartupParams state)).
Proof.
  unfold mergedSettings. rewrite overwrite_is_union.
  destruct (Z.eqb_spec (map_len (StartupParams state)) 0) as [H1|H1],
           (Z.eqb_spec (map_len (SessionSettings state)) 0) as [H2|H2];
    rewrite map_len_0 in H1, H2; simpl; case_decide; tauto.
Qed.

(** The rows of [TestMergedSettings]. *)
Example merged_both_nil :
  mergedSettings NewMultiGatewayConnectionState = None.
Proof. reflexivity. Qed.

Example merged_session_overrides :
  mergedSettings
    (SetSessionVariable "DateStyle" "SQL, DMY"
       (mkState (Some {[ "DateStyle" := "ISO, MDY"; "TimeZone" := "UTC" ]}) None))
  = Some {[ "DateStyle" := "SQL, DMY"; "TimeZone" := "UTC" ]}.
Proof. vm_compute. reflexivity. Qed.

Example merged_only_session :
  mergedSettings (SetSessionVariable "work_mem" "64MB" NewMultiGatewayConnectionState)
  = Some {[ "work_mem" := "64MB" ]}.
Proof. vm_compute. reflexivity. Qed.

(** C1. For every session state, with startup parameters P and session
    settings S (either map possibly nil or empty): the keys of the merge
    are the keys of P together with those of S; a key of S has its S value
    (also when P has the key), a key of P alone its P value; the merge is
    nil exactly when P and S are both empty or nil, and it is never an
    empty map that is not nil. *)
Theorem mergedSettings_union (state : MultiGatewayConnectionState) :
  keys (mergedSettings state)
    = keys (StartupParams state) ∪ keys (SessionSettings state) ∧
  (∀ k, get (mergedSettings state) k =
        match get (SessionSettings state) k with
        | Some v => Some v
        | None => get (StartupParams state) k
        end) ∧
  (mergedSettings state = None ↔
     map_len (StartupParams state) = 0 ∧ map_len (SessionSettings state) = 0) ∧
  mergedSettings state ≠ Some ∅.
Proof.
  rewrite mergedSettings_cases, !map_len_0. unfold keys, get.
  case_decide as Hboth.
  - destruct Hboth as [-> ->]. cbn. rewrite dom_empty_L, (left_id_L ∅ (∪)).
    split; [reflexivity |]. split; [intros k; now rewrite lookup_empty |].
    split; [tauto | discriminate].
  - cbn. rewrite dom_union_L. split; [apply (comm_L (∪)) |]. split.
    + intros k. rewrite lookup_union.
      destruct (entries (SessionSettings state) !! k), (entries (StartupParams state) !! k);
        reflexivity.
    + split; [split; [discriminate | tauto] |].
      intros [= Hempty]. apply Hboth.
      pose proof (map_positive_l _ _ Hempty) as HS.
      rewrite HS, (left_id_L ∅ (∪)) in Hempty. tauto.
Qed.

End MergeFacts.

(** ** Authentication negotiation *)

Section AuthFacts.

Import Client.

Lemma prefix_refl (s : string) : String.prefix s s = true.
Proof.
  induction s as [|x s IH]; [reflexivity |]. simpl.
  destruct (Ascii.ascii_dec x x); [exact IH | congruence].
Qed.

(** What [WriteInt32] writes, [ReadInt32] reads back, from the front of
    any body. *)
Lemma ReadInt32_WriteInt32 (code : Z) (rest : list Z) :
  is_int32 code →
  ReadInt32 (mkReader (WriteInt32 code ++ rest) 0) =
  Some (code, mkReader (WriteInt32 code ++ rest) 4).
Proof.
  unfold is_int32, ReadInt32, WriteInt32. intros Hc. cbn [pos buf drop app].
  set (u := code mod 2 ^ 32).
  assert (Hu : 0 <= u < 2 ^ 32) by (apply Z.mod_pos_bound; lia).
  assert (Hsum : ((u / 2 ^ 24 * 256 + (u / 2 ^ 16) mod 256) * 256
                  + (u / 2 ^ 8) mod 256) * 256 + u mod 256 = u).
  { change (2 ^ 24) with (2 ^ 16 * 256). change (2 ^ 16) with (2 ^ 8 * 256).
    change (2 ^ 8) with 256.
    rewrite <- !Z.div_div by lia.
    pose proof (Z.div_mod u 256). pose proof (Z.div_mod (u / 256) 256).
    pose proof (Z.div_mod (u / 256 / 256) 256). lia. }
  rewrite Hsum. f_equal. f_equal.
  destruct (Z_lt_ge_dec code 0) as [Hneg | Hpos].
  - assert (u = code + 2 ^ 32) as ->.
    { unfold u. symmetry. apply Z.mod_unique with (q := -1); lia. }
    case_match eqn:Hlt; [apply Z.ltb_lt in Hlt; lia | lia].
  - assert (u = code) as -> by (unfold u; apply Z.mod_small; lia).
    case_match eqn:Hlt; [reflexivity | apply Z.ltb_ge in Hlt; lia].
Qed.

Lemma WriteInt32_length (code : Z) : length (WriteInt32 code) = 4%nat.
Proof. reflexivity. Qed.

(** The step on a body that starts with an encoded method code. *)
Lemma handle_encoded (codes : AuthCodes) (code : Z) (rest : list Z) :
  is_int32 code →
  handleAuthenticationRequest codes (WriteInt32 code ++ rest) =
  let r := mkReader (WriteInt32 code ++ rest) 4 in
  if code =? AuthOk codes then (Authenticated, r)
  else if code =? AuthCleartextPassword codes then (policy_rejection "cleartext password", r)
  else if code =? AuthMD5Password codes then (policy_rejection "MD5 password", r)
  else (Rejected ("unsupported authentication method: " +:+ itoa code), r).
Proof.
  intros Hc. unfold handleAuthenticationRequest.
  rewrite length_app, WriteInt32_length.
  case_match eqn:Hshort; [apply Z.ltb_lt in Hshort; lia |].
  rewrite ReadInt32_WriteInt32 by assumption. reflexivity.
Qed.

Lemma ReadInt32_advances (r r' : MessageReader) (code : Z) :
  ReadInt32 r = Some (code, r') → pos r' = (pos r + 4)%nat.
Proof.
  unfold ReadInt32.
  destruct (drop (pos r) (buf r)) as [|b0 [|b1 [|b2 [|b3 rest]]]];
    try discriminate.
  intros [= _ <-]. reflexivity.
Qed.

Lemma handle_consumes_at_most_4 (codes : AuthCodes) (body : list Z) :
  (pos (handleAuthenticationRequest codes body).2 <= 4)%nat.
Proof.
  unfold handleAuthenticationRequest.
  destruct (Z.of_nat (length body) <? 4); [simpl; lia |].
  destruct (ReadInt32 (mkReader body 0)) as [[code r]|] eqn:Hread; [| simpl; lia].
  apply ReadInt32_advances in Hread. cbn [pos] in Hread.
  repeat case_match; cbn [snd]; lia.
Qed.

Example auth_md5_test :
  handleAuthenticationRequest pg_codes (WriteInt32 5 ++ [1; 2; 3; 4]) =
  (Rejected "MD5 password authentication is not supported for security reasons",
   mkReader [0; 0; 0; 5; 1; 2; 3; 4] 4).
Proof. reflexivity. Qed.

Example auth_unknown_test :
  handleAuthenticationRequest pg_codes (WriteInt32 99) =
  (Rejected "unsupported authentication method: 99", mkReader [0; 0; 0; 99] 4).
Proof. reflexivity. Qed.

(** C4. The negotiation step on an authentication-request body: a body of
    fewer than four bytes is rejected with a message containing "too
    short" and nothing is consumed; the OK code authenticates; the
    cleartext code is rejected with a message containing "cleartext
    password", "not supported" and "security"; the MD5 code with one
    containing "MD5 password", "not supported" and "security"; any other
    code with one containing "unsupported authentication method" and the
    code in decimal. In each of these four bytes are consumed whatever
    follows the code, and on no body does the step consume more. *)
Theorem authentication_rejection
    (codes : AuthCodes) (code : Z) (rest short : list Z) :
  codes_ok codes →
  is_int32 code →
  unknown_code codes code →
  (length short < 4)%nat →
  rejects (handleAuthenticationRequest codes short) ["too short"] 0 ∧
  handleAuthenticationRequest codes (WriteInt32 (AuthOk codes) ++ rest) =
    (Authenticated, mkReader (WriteInt32 (AuthOk codes) ++ rest) 4) ∧
  rejects (handleAuthenticationRequest codes
             (WriteInt32 (AuthCleartextPassword codes) ++ rest))
    ["cleartext password"; "not supported"; "security"] 4 ∧
  rejects (handleAuthenticationRequest codes
             (WriteInt32 (AuthMD5Password codes) ++ rest))
    ["MD5 password"; "not supported"; "security"] 4 ∧
  rejects (handleAuthenticationRequest codes (WriteInt32 code ++ rest))
    ["unsupported authentication method"; itoa code] 4 ∧
  (∀ body, (pos (handleAuthenticationRequest codes body).2 <= 4)%nat).
Proof.
  intros ((Hok & Hclear & Hmd5) & Hd1 & Hd2 & Hd3) Hcode (Hu1 & Hu2 & Hu3) Hshort.
  split; [| split; [| split; [| split; [| split]]]].
  - unfold handleAuthenticationRequest.
    case_match eqn:Hlen; [| apply Z.ltb_ge in Hlen; lia].
    eexists. repeat split. repeat constructor.
  - rewrite handle_encoded by assumption. now rewrite Z.eqb_refl.
  - rewrite handle_encoded by assumption. cbn zeta.
    rewrite (proj2 (Z.eqb_neq _ _)) by congruence. rewrite Z.eqb_refl.
    eexists. repeat split. repeat constructor.
  - rewrite handle_encoded by assumption. cbn zeta.
    rewrite !(proj2 (Z.eqb_neq _ _)) by congruence. rewrite Z.eqb_refl.
    eexists. repeat split. repeat constructor.
  - rewrite handle_encoded by assumption. cbn zeta.
    rewrite !(proj2 (Z.eqb_neq _ _)) by congruence.
    eexists. split; [reflexivity |]. split; [reflexivity |].
    constructor; [apply Contains_append_r; reflexivity |].
    constructor; [| constructor].
    apply Contains_append_l, Contains_prefix, prefix_refl.
  - apply handle_consumes_at_most_4.
Qed.

Lemma authentication_rejection_witness :
  codes_ok pg_codes ∧ is_int32 99 ∧ unknown_code pg_codes 99 ∧
  (length [0; 0] < 4)%nat ∧
  rejects (handleAuthenticationRequest pg_codes [0; 0]) ["too short"] 0 ∧
  rejects (handleAuthenticationRequest pg_codes (WriteInt32 99 ++ [7]))
    ["unsupported authentication method"; itoa 99] 4.
Proof.
  assert (H1 : codes_ok pg_codes) by (vm_compute; intuition discriminate).
  assert (H2 : is_int32 99) by (vm_compute; intuition discriminate).
  assert (H3 : unknown_code pg_codes 99) by (vm_compute; intuition discriminate).
  assert (H4 : (length [0; 0] < 4)%nat) by (simpl; lia).
  destruct (authentication_rejection pg_codes 99 [7] [0; 0] H1 H2 H3 H4)
    as (Hshort & _ & _ & _ & Hunknown & _).
  exact (conj H1 (conj H2 (conj H3 (conj H4 (conj Hshort Hunknown))))).
Defined.

End AuthFacts.

(** ** Parameter status tracking *)

Section ParameterStatusFacts.

Import Client.

Lemma announce_cons (u : string * string) (rest : list (string * string)) (c : Conn) :
  announce (u :: rest) c = announce rest (handleParameterStatus u.1 u.2 c).
Proof. reflexivity. Qed.

(** The pending view after a batch: the latest announced value of a name,
    else what was pending before. *)
Lemma pending_after_announce (updates : list (string * string)) (c : Conn) (k : string) :
  get (parameterStatus (announce updates c)) k =
  match latest k updates with
  | Some v => Some v
  | None => get (parameterStatus c) k
  end.
Proof.
  revert c. induction updates as [|[n v] rest IH]; intros c; [reflexivity |].
  rewrite announce_cons, IH. cbn [latest fst snd].
  destruct (latest k rest); [reflexivity |].
  unfold handleParameterStatus, get. cbn [parameterStatus entries from_option id].
  case_decide as Hn.
  - subst. apply lookup_insert_eq.
  - now apply lookup_insert_ne.
Qed.

(** The durable view after a batch, likewise. *)
Lemma durable_after_announce (updates : list (string * string)) (c : Conn) (k : string) :
  serverParams (announce updates c) !! k =
  match latest k updates with
  | Some v => Some v
  | None => serverParams c !! k
  end.
Proof.
  revert c. induction updates as [|[n v] rest IH]; intros c; [reflexivity |].
  rewrite announce_cons, IH. cbn [latest fst snd].
  destruct (latest k rest); [reflexivity |].
  unfold handleParameterStatus. cbn [serverParams].
  case_decide as Hn.
  - subst. apply lookup_insert_eq.
  - now apply lookup_insert_ne.
Qed.

Lemma pending_stays (updates : list (string * string)) (c : Conn) :
  is_Some (parameterStatus c) → is_Some (parameterStatus (announce updates c)).
Proof.
  revert c. induction updates as [|u rest IH]; intros c Hc; [exact Hc |].
  rewrite announce_cons. apply IH. eexists. reflexivity.
Qed.

Lemma pending_nil_after_announce (updates : list (string * string)) (c : Conn) :
  parameterStatus (announce updates c) = None ↔
  updates = [] ∧ parameterStatus c = None.
Proof.
  destruct updates as [|u rest]; [simpl; tauto |].
  split; [| intros [[=] _]]. intros H. exfalso.
  rewrite announce_cons in H.
  destruct (pending_stays rest (handleParameterStatus u.1 u.2 c)) as [m Hm].
  - eexists. reflexivity.
  - congruence.
Qed.

Lemma durable_after_drain (c : Conn) :
  serverParams (GetParameterStatus c).2 = serverParams c.
Proof. reflexivity. Qed.

(** [TestGetParameterStatus_ClearsAfterRead]. *)
Example drain_test :
  let conn := mkConn ∅ None in
  let conn := handleParameterStatus "work_mem" "64MB" conn in
  let '(ps, conn) := GetParameterStatus conn in
  let '(ps2, conn) := GetParameterStatus conn in
  let conn3 := handleParameterStatus "work_mem" "128MB" conn in
  get ps "work_mem" = Some "64MB" ∧ ps2 = None ∧
  serverParams conn !! "work_mem" = Some "64MB" ∧
  get (GetParameterStatus conn3).1 "work_mem" = Some "128MB".
Proof. vm_compute. repeat split. Qed.

(** [TestHandleParameterStatus_OverwritesPreviousValue]. *)
Example overwrite_test :
  let updates := [("TimeZone", "UTC"); ("TimeZone", "US/Pacific")] in
  let conn := announce updates (mkConn ∅ None) in
  latest "TimeZone" updates = Some "US/Pacific" ∧
  serverParams conn !! "TimeZone" = Some "US/Pacific" ∧
  get (GetParameterStatus conn).1 "TimeZone" = Some "US/Pacific".
Proof. vm_compute. repeat split. Qed.

(** C5. After any batch of announcements with no read in between, the
    read returns the pending map in which every announced name holds the
    value of its last announcement (names pending from before keep theirs),
    and that map is nil only if nothing was announced and nothing was
    pending; the read leaves the pending view nil, so the next read
    returns nil; the durable map holds, before and after each read, the
    last announced value of every name and its earlier value for the
    others. *)
Theorem parameter_status_drains_once
    (c : Conn) (updates : list (string * string)) :
  let announced := announce updates c in
  let first := GetParameterStatus announced in
  let second := GetParameterStatus first.2 in
  (∀ k, get first.1 k =
        match latest k updates with
        | Some v => Some v
        | None => get (parameterStatus c) k
        end) ∧
  (first.1 = None ↔ updates = [] ∧ parameterStatus c = None) ∧
  second.1 = None ∧
  (∀ k, serverParams announced !! k =
        match latest k updates with
        | Some v => Some v
        | None => serverParams c !! k
        end) ∧
  serverParams first.2 = serverParams announced ∧
  serverParams second.2 = serverParams announced.
Proof.
  cbn zeta. split; [intros k; apply pending_after_announce |].
  split; [apply pending_nil_after_announce |].
  split; [reflexivity |].
  split; [intros k; apply durable_after_announce |].
  split; reflexivity.
Qed.

End ParameterStatusFacts.

(** ** More on the row codec *)

Section WireFacts.

Import Codec Wire.

Lemma bind_Returned_inv {A B} (x : outcome A) (k : A → outcome B) (b : B) :
  (x ≫= k) = Returned b → ∃ a, x = Returned a ∧ k a = Returned b.
Proof. destruct x as [a|m]; [eauto | discriminate]. Qed.

Lemma reslice_Returned (vals v : byte_slice) (lo hi : Z) :
  reslice vals lo hi = Returned v →
  0 <= lo <= hi ∧ hi <= slice_cap vals ∧
  elems v = take (Z.to_nat (hi - lo)) (drop (Z.to_nat lo) (backing vals)).
Proof.
  unfold reslice, backing. case_match eqn:Hb; [| discriminate].
  rewrite !andb_true_iff, !Z.leb_le in Hb. intros [= <-].
  split; [lia |]. split; [lia | reflexivity].
Qed.

Lemma backing_length (vals : byte_slice) :
  Z.of_nat (length (backing vals)) = slice_cap vals.
Proof. unfold backing, slice_cap. now rewrite length_app. Qed.

(** What a walk that reaches the end has seen: lengths of the wire
    contract that stay within the capacity. *)
Lemma decode_Returned_inv (vals : byte_slice) (lengths : list Z) (offset : Z)
    (vs : list Value) :
  slice_cap vals <= maxInt →
  int64_lengths lengths →
  0 <= offset <= slice_cap vals →
  decode_from vals offset lengths = Returned vs →
  wire_lengths lengths ∧ offset + declared lengths <= slice_cap vals.
Proof.
  intros Hcap Hint. revert offset vs.
  induction Hint as [|l rest Hl Hrest IH]; intros offset vs Hoff Hret.
  - split; [constructor | simpl; lia].
  - cbn [decode_from] in Hret. rewrite declared_cons.
    destruct (Z.eqb_spec l (-1)) as [->|Hn1].
    { apply bind_Returned_inv in Hret as (vs' & Hvs' & _).
      destruct (IH _ _ Hoff Hvs') as [Hw Hd].
      split; [constructor; [unfold maxInt; lia | exact Hw] | exact Hd]. }
    destruct (Z.eqb_spec l 0) as [->|Hn0].
    { apply bind_Returned_inv in Hret as (vs' & Hvs' & _).
      destruct (IH _ _ Hoff Hvs') as [Hw Hd].
      split; [constructor; [unfold maxInt; lia | exact Hw] | exact Hd]. }
    apply bind_Returned_inv in Hret as (v & Hv & Hret).
    apply bind_Returned_inv in Hret as (vs' & Hvs' & _).
    apply reslice_Returned in Hv as (Hlo & Hhi & _).
    assert (Hnowrap : wrap64 (offset + l) = offset + l ∧ 1 <= l).
    { destruct (Z_le_gt_dec (offset + l) maxInt) as [Hs | Hw].
      - rewrite wrap64_small in Hlo |- * by (unfold minInt, maxInt in *; lia).
        split; [reflexivity | lia].
      - rewrite wrap64_over in Hlo by (unfold maxInt in *; lia).
        unfold maxInt in *. lia. }
    destruct Hnowrap as [Heq Hpos]. rewrite Heq in *.
    destruct (IH (offset + l) vs') as [Hw Hd]; [lia | assumption |].
    simpl. split; [constructor; [lia | exact Hw] | lia].
Qed.

(** What a walk within the capacity returns: values whose lengths are the
    given ones and whose bytes are, in order, the bytes from the offset
    on. *)
Lemma decode_spec (vals : byte_slice) (lengths : list Z) (offset : Z) :
  slice_cap vals <= maxInt →
  wire_lengths lengths →
  0 <= offset →
  offset + declared lengths <= slice_cap vals →
  ∃ vs, decode_from vals offset lengths = Returned vs ∧
        map length_of vs = lengths ∧
        payload vs = take (Z.to_nat (declared lengths))
                       (drop (Z.to_nat offset) (backing vals)).
Proof.
  intros Hcap Hwire. revert offset.
  induction Hwire as [|l rest Hl Hrest IH]; intros offset Hoff Hfit.
  - exists []. repeat split.
  - rewrite declared_cons in Hfit |- *. cbn [decode_from].
    pose proof (declared_nonneg rest Hrest) as Hnn.
    destruct (Z.eqb_spec l (-1)) as [->|Hn1]; simpl in Hfit.
    { destruct (IH offset) as (vs & -> & Hlen & Hpay); [assumption .. |].
      exists (None :: vs). simpl. rewrite Hlen. repeat split. exact Hpay. }
    destruct (Z.eqb_spec l 0) as [->|Hn0]; simpl in Hfit.
    { destruct (IH offset) as (vs & -> & Hlen & Hpay); [assumption .. |].
      exists (Some [] :: vs). simpl. rewrite Hlen. repeat split. exact Hpay. }
    rewrite wrap64_small by (unfold minInt, maxInt in *; lia).
    destruct (reslice_inside vals offset (offset + l)) as [v Hv]; [lia .. |].
    rewrite Hv. apply reslice_Returned in Hv as (_ & _ & Hv).
    destruct (IH (offset + l)) as (vs & -> & Hlen & Hpay); [lia .. |].
    exists (Some (elems v) :: vs). simpl.
    pose proof (backing_length vals) as Hbl.
    assert (Hvl : length (elems v) = Z.to_nat l).
    { rewrite Hv, length_take, length_drop. lia. }
    split; [reflexivity |]. split.
    + rewrite Hvl, Hlen. f_equal. lia.
    + rewrite payload_cons. cbn [from_option id]. rewrite Hpay, Hv.
      replace (Z.to_nat (offset + l - offset)) with (Z.to_nat l) by lia.
      replace (Z.to_nat (offset + l)) with (Z.to_nat offset + Z.to_nat l)%nat by lia.
      rewrite <- drop_drop, take_take_drop. f_equal. lia.
Qed.

Lemma declared_length_of (vs : list Value) :
  declared (map length_of vs) = Z.of_nat (length (payload vs)).
Proof.
  induction vs as [|v vs IH]; [reflexivity |].
  cbn [map]. rewrite declared_cons, payload_cons, length_app, IH.
  destruct v as [[|x b]|]; cbn [length_of from_option id length]; try reflexivity.
  case_match eqn:H; [| lia].
  rewrite orb_true_iff, !Z.eqb_eq in H. lia.
Qed.

Lemma wire_length_of (vs : list Value) :
  Z.of_nat (length (payload vs)) <= maxInt → wire_lengths (map length_of vs).
Proof.
  induction vs as [|v vs IH]; intros Hfit; [constructor |].
  rewrite payload_cons, length_app in Hfit. cbn [map]. constructor.
  - destruct v as [b|]; cbn [length_of from_option id] in *; unfold maxInt in *; lia.
  - apply IH. lia.
Qed.

(** X1. What [Row.ToProto] puts on the wire, for a row that fits in
    memory: one length per value, -1 exactly at the NULL values and the
    byte count elsewhere, so lengths of the wire contract; the bytes of the
    values that are not NULL, in order, in a buffer filled to its capacity;
    and the lengths declare exactly the bytes carried. *)
Theorem Row_ToProto_wire (r : Row) :
  row_fits r →
  ∃ pr, ToProto (Some r) = Returned (Some pr) ∧
        Query.Lengths pr = map length_of (Values r) ∧
        Forall2 (λ v l, (IsNull v = true ↔ l = -1) ∧
                        (∀ b, v = Some b → l = Z.of_nat (length b)))
                (Values r) (Query.Lengths pr) ∧
        wire_lengths (Query.Lengths pr) ∧
        elems (Query.Values pr) = payload (Values r) ∧
        slice_cap (Query.Values pr) = slice_len (Query.Values pr) ∧
        declared (Query.Lengths pr) = slice_len (Query.Values pr).
Proof.
  intros Hfit. eexists. split; [now apply ToProto_shape |].
  cbn [Query.Lengths Query.Values]. split; [reflexivity |]. split.
  { apply Forall2_fmap_r, Forall_Forall2_diag, Forall_forall.
    intros [b|] _; cbn; (split; [split; [discriminate || reflexivity | lia || reflexivity] |]);
      intros b' [=]; subst; reflexivity. }
  split; [now apply wire_length_of |]. split; [reflexivity |].
  unfold slice_cap, slice_len. cbn [elems spare length].
  split; [f_equal; lia | apply declared_length_of].
Qed.

Lemma Row_ToProto_wire_witness :
  row_fits sample_row ∧
  ∃ pr, ToProto (Some sample_row) = Returned (Some pr) ∧
        Query.Lengths pr = [-1; 0; 2] ∧ elems (Query.Values pr) = [104; 105].
Proof.
  assert (H : row_fits sample_row) by (vm_compute; discriminate).
  split; [exact H |].
  destruct (Row_ToProto_wire sample_row H) as (pr & Hpr & Hl & _ & _ & Hv & _).
  exists pr. split; [exact Hpr |]. split; [exact Hl | exact Hv].
Defined.

(** X2. [RowFromProto] returns a row exactly when every length is -1, 0
    or positive and the positive ones add up to no more than the capacity
    of the byte buffer; on every other input (a length below -1, or more
    bytes declared than the capacity) it panics. *)
Theorem RowFromProto_returns_iff (pr : Query.Row) :
  slice_cap (Query.Values pr) <= maxInt →
  int64_lengths (Query.Lengths pr) →
  ((∃ r, RowFromProto (Some pr) = Returned (Some r)) ↔
   wire_lengths (Query.Lengths pr) ∧
   declared (Query.Lengths pr) <= slice_cap (Query.Values pr)) ∧
  ((∃ m, RowFromProto (Some pr) = Panicked m) ↔
   ¬ (wire_lengths (Query.Lengths pr) ∧
      declared (Query.Lengths pr) <= slice_cap (Query.Values pr))).
Proof.
  intros Hcap Hint. unfold RowFromProto.
  assert (Hcap0 : 0 <= slice_cap (Query.Values pr)) by (unfold slice_cap; lia).
  destruct (decode_from (Query.Values pr) 0 (Query.Lengths pr)) as [vs|m] eqn:Hd.
  - apply decode_Returned_inv in Hd as [Hw Hfit]; [| assumption | assumption | lia].
    split; split.
    + intros _. split; [exact Hw | lia].
    + intros _. eexists. reflexivity.
    + intros [m Hm]. discriminate Hm.
    + intros Hn. exfalso. apply Hn. split; [exact Hw | lia].
  - assert (Hnot : ¬ (wire_lengths (Query.Lengths pr) ∧
                      declared (Query.Lengths pr) <= slice_cap (Query.Values pr))).
    { intros [Hw Hfit].
      destruct (decode_fits (Query.Values pr) (Query.Lengths pr) 0)
        as [vs Hvs]; [assumption | assumption | lia | lia |]. congruence. }
    split; split.
    + intros [r Hr]. discriminate Hr.
    + intros H. destruct (Hnot H).
    + intros _. exact Hnot.
    + intros _. eexists. reflexivity.
Qed.

Lemma RowFromProto_returns_iff_witness :
  slice_cap (Query.Values sample_proto_row) <= maxInt ∧
  int64_lengths (Query.Lengths sample_proto_row) ∧
  ((∃ r, RowFromProto (Some sample_proto_row) = Returned (Some r)) ↔
   wire_lengths (Query.Lengths sample_proto_row) ∧
   declared (Query.Lengths sample_proto_row)
     <= slice_cap (Query.Values sample_proto_row)).
Proof.
  assert (H1 : slice_cap (Query.Values sample_proto_row) <= maxInt)
    by (vm_compute; discriminate).
  assert (H2 : int64_lengths (Query.Lengths sample_proto_row)).
  { repeat constructor; vm_compute; discriminate. }
  exact (conj H1 (conj H2 (proj1 (RowFromProto_returns_iff sample_proto_row H1 H2)))).
Defined.

(** X3. A row that [RowFromProto] returns has one value per length; the
    value is NULL where the length is -1, empty where it is 0, and
    otherwise as many bytes long as the length says; and the bytes of the
    values, put end to end, are the first declared bytes of the buffer. *)
Theorem RowFromProto_shape (pr : Query.Row) (r : Row) :
  slice_cap (Query.Values pr) <= maxInt →
  int64_lengths (Query.Lengths pr) →
  RowFromProto (Some pr) = Returned (Some r) →
  length (Values r) = length (Query.Lengths pr) ∧
  map length_of (Values r) = Query.Lengths pr ∧
  Forall2 (λ l v, (l = -1 ↔ v = None) ∧ (l = 0 ↔ v = Some []))
          (Query.Lengths pr) (Values r) ∧
  payload (Values r) =
    take (Z.to_nat (declared (Query.Lengths pr))) (backing (Query.Values pr)).
Proof.
  intros Hcap Hint Hret. unfold RowFromProto in Hret.
  assert (Hcap0 : 0 <= slice_cap (Query.Values pr)) by (unfold slice_cap; lia).
  apply bind_Returned_inv in Hret as (vs & Hvs & [= <-]).
  pose proof Hvs as Hinv.
  apply decode_Returned_inv in Hinv as [Hw Hfit]; [| assumption | assumption | lia].
  destruct (decode_spec (Query.Values pr) (Query.Lengths pr) 0)
    as (vs' & Hvs' & Hlen & Hpay); [assumption | assumption | lia | lia |].
  assert (vs' = vs) as -> by congruence. cbn [Values].
  split; [rewrite <- Hlen; now rewrite length_map |].
  split; [exact Hlen |]. split; [| exact Hpay].
  rewrite <- Hlen. apply Forall2_fmap_l, Forall_Forall2_diag, Forall_forall.
  intros [[|x b]|] _; cbn [length_of length]; (split; split); intros H;
    try reflexivity; try discriminate; lia.
Qed.

Lemma RowFromProto_shape_witness :
  slice_cap (Query.Values sample_proto_row) <= maxInt ∧
  int64_lengths (Query.Lengths sample_proto_row) ∧
  RowFromProto (Some sample_proto_row) = Returned (Some sample_row) ∧
  map length_of (Values sample_row) = Query.Lengths sample_proto_row.
Proof.
  assert (H1 : slice_cap (Query.Values sample_proto_row) <= maxInt)
    by (vm_compute; discriminate).
  assert (H2 : int64_lengths (Query.Lengths sample_proto_row)).
  { repeat constructor; vm_compute; discriminate. }
  assert (H3 : RowFromProto (Some sample_proto_row) = Returned (Some sample_row))
    by reflexivity.
  destruct (RowFromProto_shape sample_proto_row sample_row H1 H2 H3) as (_ & Hl & _).
  exact (conj H1 (conj H2 (conj H3 Hl))).
Defined.

(** X4. Decoding a proto row and encoding the result again gives back the
    same lengths and, as bytes, the first declared bytes of the buffer in a
    buffer of exactly that size: what the buffer held beyond the declared
    bytes is dropped. *)
Theorem Row_reencode (pr : Query.Row) :
  slice_cap (Query.Values pr) <= maxInt →
  wire_lengths (Query.Lengths pr) →
  declared (Query.Lengths pr) <= slice_cap (Query.Values pr) →
  (RowFromProto (Some pr) ≫= ToProto) =
  Returned (Some (Query.mkRow (Query.Lengths pr)
     (mkSlice (take (Z.to_nat (declared (Query.Lengths pr)))
                 (backing (Query.Values pr))) []))).
Proof.
  intros Hcap Hw Hfit.
  pose proof (declared_nonneg _ Hw) as Hnn.
  destruct (decode_spec (Query.Values pr) (Query.Lengths pr) 0)
    as (vs & Hvs & Hlen & Hpay); [assumption | assumption | lia | lia |].
  unfold RowFromProto. rewrite Hvs, !bind_Returned.
  change (mret (Some (mkRow vs)) ≫= ToProto) with (ToProto (Some (mkRow vs))).
  rewrite ToProto_shape.
  - cbn [Values]. rewrite Hlen, Hpay. reflexivity.
  - unfold row_fits. cbn [Values]. rewrite <- declared_length_of, Hlen. lia.
Qed.

Lemma Row_reencode_witness :
  slice_cap (Query.Values sample_proto_row) <= maxInt ∧
  wire_lengths (Query.Lengths sample_proto_row) ∧
  declared (Query.Lengths sample_proto_row)
    <= slice_cap (Query.Values sample_proto_row) ∧
  (RowFromProto (Some sample_proto_row) ≫= ToProto) =
  Returned (Some sample_proto_row).
Proof.
  assert (H1 : slice_cap (Query.Values sample_proto_row) <= maxInt)
    by (vm_compute; discriminate).
  assert (H2 : wire_lengths (Query.Lengths sample_proto_row)).
  { repeat constructor; vm_compute; discriminate. }
  assert (H3 : declared (Query.Lengths sample_proto_row)
               <= slice_cap (Query.Values sample_proto_row))
    by (vm_compute; discriminate).
  exact (conj H1 (conj H2 (conj H3 (Row_reencode sample_proto_row H1 H2 H3)))).
Defined.

(** X5. [Row.ToProto] tells rows apart: two different rows that fit in
    memory never encode to the same proto row; in particular a NULL column
    and an empty column differ on the wire. *)
Theorem Row_ToProto_injective (r1 r2 : Row) :
  row_fits r1 → row_fits r2 → r1 ≠ r2 →
  ToProto (Some r1) ≠ ToProto (Some r2).
Proof.
  intros H1 H2 Hne Heq. apply Hne.
  pose proof (Row_round_trip r1 H1) as E1.
  pose proof (Row_round_trip r2 H2) as E2.
  rewrite Heq in E1. congruence.
Qed.

Lemma Row_ToProto_injective_witness :
  row_fits null_row ∧ row_fits empty_row ∧ null_row ≠ empty_row ∧
  ToProto (Some null_row) ≠ ToProto (Some empty_row).
Proof.
  assert (H1 : row_fits null_row) by (vm_compute; discriminate).
  assert (H2 : row_fits empty_row) by (vm_compute; discriminate).
  assert (H3 : null_row ≠ empty_row) by discriminate.
  exact (conj H1 (conj H2 (conj H3 (Row_ToProto_injective null_row empty_row H1 H2 H3)))).
Defined.

(** X6. From the transport form and back, a diagnostic keeps every field
    but the message type, which is cut to its low eight bits: the trip is
    exact if and only if the transport message type is a byte value. *)
Theorem PgDiagnostic_proto_trip (pd : Query.PgDiagnostic) :
  PgDiagnosticToProto (PgDiagnosticFromProto (Some pd)) = Some (truncated pd) ∧
  (PgDiagnosticToProto (PgDiagnosticFromProto (Some pd)) = Some pd ↔
   0 <= Query.MessageType pd < 256).
Proof.
  assert (H : PgDiagnosticToProto (PgDiagnosticFromProto (Some pd)) = Some (truncated pd))
    by reflexivity.
  split; [exact H |]. rewrite H. destruct pd as [mt sev c m dt h p ip iq w sc t cl dty cn].
  unfold truncated. cbn. split.
  - intros [= Hmt]. rewrite <- Hmt. apply Z.mod_pos_bound. lia.
  - intros Hb. rewrite Z.mod_small by lia. reflexivity.
Qed.

End WireFacts.

(** ** Query results *)

Section ResultFacts.

Import Codec Results.

Context {Field : Type}.

Lemma for_each_round_trip {A B} (f : A → outcome B) (g : B → outcome A) (xs : list A) :
  Forall (λ x, (f x ≫= g) = Returned x) xs →
  (for_each f xs ≫= for_each g) = Returned xs.
Proof.
  induction 1 as [|x xs Hx _ IH]; [reflexivity |].
  cbn [for_each]. apply bind_Returned_inv in Hx as (y & Hy & Hgy).
  rewrite Hy, bind_Returned.
  apply bind_Returned_inv in IH as (ys & Hys & Hgys).
  rewrite Hys, !bind_Returned.
  change (mret (y :: ys) ≫= for_each g) with (for_each g (y :: ys)).
  cbn [for_each]. rewrite Hgy, bind_Returned, Hgys. reflexivity.
Qed.



(** X7. A result whose rows fit in memory and whose notices hold a byte as
    message type comes back unchanged from [Result.ToProto] followed by
    [ResultFromProto]: the same fields, count, command tag, the rows and
    the notices in their order, nil entries still nil; a nil result comes
    back nil. *)
Theorem Result_round_trip (r : Result Field) :
  rows_fit (Rows r) →
  notices_in_range (Notices r) →
  (Results.ToProto (Some r) ≫= ResultFromProto) = Returned (Some r) ∧
  (Results.ToProto (@None (Result Field)) ≫= ResultFromProto) = Returned None.
Proof.
  intros Hrows Hnotices. split; [| reflexivity].
  assert (Hrt : (for_each Codec.ToProto (Rows r) ≫= for_each RowFromProto)
                = Returned (Rows r)).
  { apply for_each_round_trip. eapply Forall_impl; [exact Hrows |].
    intros [row|] Hrow; [now apply Row_round_trip | reflexivity]. }
  apply bind_Returned_inv in Hrt as (prs & Hprs & Hdec).
  unfold Results.ToProto. rewrite Hprs, !bind_Returned.
  change (mret ?x ≫= ResultFromProto) with (ResultFromProto x).
  unfold ResultFromProto.
  cbn [pRows pNotices pFields pRowsAffected pCommandTag].
  rewrite Hdec, bind_Returned.
  assert (Hn : map PgDiagnosticFromProto (map PgDiagnosticToProto (Notices r))
               = Notices r).
  { rewrite map_map. rewrite <- (map_id (Notices r)) at 2.
    apply map_ext_Forall. eapply Forall_impl; [exact Hnotices |].
    intros [d|] Hd; [now apply PgDiagnostic_round_trip | reflexivity]. }
  rewrite Hn. destruct r. reflexivity.
Qed.


(** [MakeRow] on the values of [sample_row]. *)
Example MakeRow_sample :
  MakeRow [None; Some []; Some [104; 105]] = Some sample_row.
Proof. reflexivity. Qed.

End ResultFacts.

Section ResultExamples.

Import Codec Results.

Lemma Result_round_trip_witness :
  rows_fit (Rows sample_result) ∧ notices_in_range (Notices sample_result) ∧
  (Results.ToProto (Some sample_result) ≫= ResultFromProto)
    = Returned (Some sample_result).
Proof.
  assert (H1 : rows_fit (Rows sample_result)).
  { repeat constructor. vm_compute. discriminate. }
  assert (H2 : notices_in_range (Notices sample_result)).
  { repeat constructor; vm_compute; discriminate. }
  exact (conj H1 (conj H2 (proj1 (Result_round_trip sample_result H1 H2)))).
Defined.

End ResultExamples.

(** ** More on PgError and on diagnostics *)

Section PgErrorFacts.

Import Mterrors ErrorsIs.

(** X9. A [PgError] renders exactly as the diagnostic it holds: [Error]
    and [FullError] of any [*PgError], nil included, are the diagnostic's
    own [Error] and [FullError] applied to what [Diagnostic] returns; and
    both constructors keep the diagnostic they are given. *)
Theorem PgError_renders_as_diagnostic :
  (∀ e, Error e = Sqltypes.Error (Diagnostic e) ∧
        FullError e = Sqltypes.FullError (Diagnostic e)) ∧
  (∀ fresh pcs d,
     Diagnostic (NewPgError fresh pcs d) = d ∧
     Diagnostic (NewPgErrorFromDiagnostic fresh pcs d) = d ∧
     Error (NewPgError fresh pcs d) = Sqltypes.Error d ∧
     FullError (NewPgErrorFromDiagnostic fresh pcs d) = Sqltypes.FullError d).
Proof.
  split.
  - intros [[a [[d|] st]]|]; split; reflexivity.
  - intros fresh pcs [d|]; repeat split.
Qed.

(** X10. [IsPgError] answers what the flag of [AsPgError] answers. When
    the flag is false the pointer returned is nil. The flag can be true
    with a nil pointer, namely when the chain ends in a nil [*PgError]
    held in a non-nil [error]; rendering that pointer still gives the
    generic text. *)
Theorem IsPgError_agrees_with_AsPgError :
  (∀ err, IsPgError err = (AsPgError err).2) ∧
  (∀ err, (AsPgError err).2 = true ∨ AsPgError err = (None, false)) ∧
  (∀ ctxs,
     AsPgError (Some (wrap_chain ctxs (ErrPgError None))) = (None, true) ∧
     Error (AsPgError (Some (wrap_chain ctxs (ErrPgError None)))).1
       = "ERROR: unknown error").
Proof.
  split; [| split].
  - intros [err|]; [| reflexivity]. unfold IsPgError, AsPgError.
    destruct (errors_As err); reflexivity.
  - intros [err|]; [| now right]. unfold AsPgError.
    destruct (errors_As err); [now left | now right].
  - intros ctxs. rewrite AsPgError_wrap_chain. split; reflexivity.
Qed.

Lemma is_loop_wrap_chain (ctxs : list string) (err : error)
    (target : option (ptr PgError)) (fuel : nat) :
  is_loop (length ctxs + fuel) (wrap_chain ctxs err) target = is_loop fuel err target.
Proof.
  induction ctxs as [|ctx ctxs IH]; [reflexivity | exact IH].
Qed.

(** X11. [errors.Is] against a [*PgError] target walks any chain of
    contexts down to the [PgError] at its end, where it stops (the
    [PgError] has no cause): the answer is true exactly when that
    [PgError] is the target pointer itself. A different [PgError], even
    one with the same contents, does not match; a chain that ends in a
    plain error never does. *)
Theorem errors_Is_by_identity
    (ctxs : list string) (e target : option (ptr PgError)) (text : string)
    (fuel : nat) :
  (length ctxs < fuel)%nat →
  is_loop fuel (wrap_chain ctxs (ErrPgError e)) target = Some (same_pointer e target) ∧
  is_loop fuel (wrap_chain ctxs (ErrNew text)) target = Some false.
Proof.
  intros Hfuel.
  replace fuel with (length ctxs + S (fuel - length ctxs - 1))%nat by lia.
  rewrite !is_loop_wrap_chain. cbn [is_loop same_error unwrap_method Unwrap].
  split; [| reflexivity]. destruct (same_pointer e target); reflexivity.
Qed.

Lemma errors_Is_by_identity_witness :
  (length ["outer"; "inner"] < 3)%nat ∧
  is_loop 3 (wrap_chain ["outer"; "inner"]
               (ErrPgError (NewPgError 1 [] (Some Sqltypes.undefined_table))))
    (NewPgError 1 [] (Some Sqltypes.undefined_table)) = Some true ∧
  is_loop 3 (wrap_chain ["outer"; "inner"]
               (ErrPgError (NewPgError 1 [] (Some Sqltypes.undefined_table))))
    (NewPgError 2 [] (Some Sqltypes.undefined_table)) = Some false.
Proof.
  assert (H : (length ["outer"; "inner"] < 3)%nat) by (simpl; lia).
  split; [exact H |]. split.
  - exact (proj1 (errors_Is_by_identity ["outer"; "inner"]
                    (NewPgError 1 [] (Some Sqltypes.undefined_table))
                    (NewPgError 1 [] (Some Sqltypes.undefined_table)) "" 3 H)).
  - exact (proj1 (errors_Is_by_identity ["outer"; "inner"]
                    (NewPgError 1 [] (Some Sqltypes.undefined_table))
                    (NewPgError 2 [] (Some Sqltypes.undefined_table)) "" 3 H)).
Defined.

End PgErrorFacts.

Section MoreDiagnosticFacts.

Import Sqltypes.

(** X12. A diagnostic that [Validate] accepts is exactly one of error and
    notice: one of [IsError] and [IsNotice] holds and not the other. (No
    diagnostic at all is both.) *)
Theorem validated_is_error_or_notice (d : PgDiagnostic) :
  Validate (Some d) = None →
  xorb (IsError d) (IsNotice d) = true ∧ IsError d && IsNotice d = false.
Proof.
  intros Hv. unfold Validate in Hv.
  destruct (issues d) as [|i rest] eqn:Hi; [| discriminate Hv].
  unfold issues in Hi. apply app_eq_nil in Hi as [Hi _].
  unfold issue_MessageType in Hi.
  unfold IsError, IsNotice, MsgErrorResponse, MsgNoticeResponse.
  destruct (Z.eqb_spec (MessageType d) 69), (Z.eqb_spec (MessageType d) 78);
    cbn [negb andb xorb] in *; try (split; reflexivity); try lia.
  destruct (MessageType d =? 0); discriminate Hi.
Qed.

Lemma validated_is_error_or_notice_witness :
  Validate (Some undefined_table) = None ∧
  xorb (IsError undefined_table) (IsNotice undefined_table) = true.
Proof.
  assert (H : Validate (Some undefined_table) = None) by reflexivity.
  exact (conj H (proj1 (validated_is_error_or_notice undefined_table H))).
Defined.

(** X13. The class of a diagnostic is always a prefix of its code, two
    bytes long or empty; it is empty exactly for codes of fewer than two
    bytes, which are the diagnostics [IsClass] puts in the class "". *)
Theorem SQLSTATEClass_shape (d : PgDiagnostic) :
  String.prefix (SQLSTATEClass d) (Code d) = true ∧
  (String.length (SQLSTATEClass d) = 2%nat ∨ SQLSTATEClass d = "") ∧
  (SQLSTATEClass d = "" ↔ len (Code d) < 2) ∧
  (IsClass d "" = true ↔ len (Code d) < 2) ∧
  IsClass d (SQLSTATEClass d) = true.
Proof.
  assert (Hempty : SQLSTATEClass d = "" ↔ len (Code d) < 2).
  { rewrite SQLSTATEClass_cases. unfold len.
    destruct (Code d) as [|a [|b rest]]; cbn [String.length];
      split; intros H; try reflexivity; try discriminate; lia. }
  split; [| split; [| split; [exact Hempty | split]]].
  - rewrite SQLSTATEClass_cases. destruct (Code d) as [|a [|b rest]]; try reflexivity.
    simpl. destruct (Ascii.ascii_dec a a); [| congruence].
    destruct (Ascii.ascii_dec b b); [| congruence]. now destruct rest.
  - rewrite SQLSTATEClass_cases. destruct (Code d) as [|a [|b rest]]; auto.
  - unfold IsClass. rewrite bool_decide_eq_true. exact Hempty.
  - unfold IsClass. now rewrite bool_decide_eq_true.
Qed.

End MoreDiagnosticFacts.
